(** * A todo-list service: HTTP handlers over a managed store, and the client view

    Shallow embedding of
    - the route file of [/api/todo]       (handlers [GET], [POST]),
    - [src/app/api/todo/[id]/route.ts]    (handlers [PUT], [DELETE]),
    - [src/app/page.tsx]                  ([createTodo], [filteredTodos]).

    The handlers are written against an interface of the database gateway
    ([Gateway]), one method per query the source builds. [PgStore] models
    the hosted table behind it: a PostgreSQL table reached through the
    gateway's REST layer.

    Texts are modelled over ASCII: [trim] strips the ASCII white space of
    [String.prototype.trim], [toLowerCase] folds [A-Z]; bytes above 127 are
    kept as they are. Statements that depend on trimming or on letter case
    are made for ASCII texts ([ascii_text]). Timestamps are integers. *)

From Stdlib Require Import List String Ascii Bool ZArith Arith Lia.
From Stdlib Require Import Permutation Sorted DecimalString DecimalNat.
Import ListNotations.

Local Open Scope string_scope.
Local Open Scope Z_scope.

(* ================================================================== *)
(** ** JavaScript strings *)

Module JsString.

(** White space removed by [trim]: TAB, LF, VT, FF, CR and SPACE, the white
    space of [String.prototype.trim] among the ASCII characters. The white
    space beyond ASCII (U+00A0, U+FEFF, U+2028, ...) is not recognised. *)
Definition is_space (c : ascii) : bool :=
  let n := nat_of_ascii c in
  ((9 <=? n) && (n <=? 13))%nat || (n =? 32)%nat.

(** The folding of [toLowerCase] on the ASCII characters: [A-Z] to [a-z].
    Letters beyond ASCII are kept as they are. *)
Definition lower_char (c : ascii) : ascii :=
  let n := nat_of_ascii c in
  if ((65 <=? n) && (n <=? 90))%nat then ascii_of_nat (n + 32) else c.

(** [s.toLowerCase()] *)
Fixpoint toLowerCase (s : string) : string :=
  match s with
  | EmptyString => EmptyString
  | String c s' => String (lower_char c) (toLowerCase s')
  end.

Fixpoint trimStart (s : string) : string :=
  match s with
  | EmptyString => EmptyString
  | String c s' => if is_space c then trimStart s' else s
  end.

Fixpoint trimEnd (s : string) : string :=
  match s with
  | EmptyString => EmptyString
  | String c s' =>
      match trimEnd s' with
      | EmptyString => if is_space c then EmptyString else String c EmptyString
      | r => String c r
      end
  end.

(** [s.trim()] *)
Definition trim (s : string) : string := trimEnd (trimStart s).

Fixpoint startsWith (s p : string) {struct p} : bool :=
  match p, s with
  | EmptyString, _ => true
  | String a p', String b s' => Ascii.eqb a b && startsWith s' p'
  | String _ _, EmptyString => false
  end.

(** [s.includes(p)] *)
Fixpoint includes (s p : string) : bool :=
  startsWith s p ||
  match s with
  | EmptyString => false
  | String _ s' => includes s' p
  end.

End JsString.
Import JsString.

(** Two texts are the same up to letter case. *)
Definition ci_eq (a b : string) : Prop := toLowerCase a = toLowerCase b.
Definition ci_eqb (a b : string) : bool := String.eqb (toLowerCase a) (toLowerCase b).

(* ================================================================== *)
(** ** Data model *)

(** [interface SupabaseTodo]: a row of table [todos], in the storage naming.
    [created_at] is the column's timestamp (microseconds), the value the
    store orders by; the handlers only copy it. *)
Record SupabaseTodo : Type := mkRow {
  id : string;
  todo : string;
  is_completed : bool;
  created_at : Z
}.

(** [interface TodoResponse] / the client's [interface Todo]: the API naming. *)
Module Api.
Record Todo : Type := mk {
  id : string;
  todo : string;
  isCompleted : bool;
  createdAt : Z
}.
End Api.

(** A JSON value, as [request.json()] yields it for a field of the body.
    The handlers never look inside an array or an object. *)
Inductive json : Type :=
| JNull
| JBool (b : bool)
| JNumber (n : Z)
| JString (s : string)
| JArray
| JObject.

(** A field of a parsed body: [None] is [undefined] (key absent). *)
Definition field := option json.

(** [typeof v] *)
Definition typeof (v : field) : string :=
  match v with
  | None => "undefined"
  | Some (JBool _) => "boolean"
  | Some (JNumber _) => "number"
  | Some (JString _) => "string"
  | Some JNull | Some JArray | Some JObject => "object"
  end.

(** JavaScript truthiness, the negation of [!v]. *)
Definition truthy (v : field) : bool :=
  match v with
  | None | Some JNull => false
  | Some (JBool b) => b
  | Some (JNumber n) => negb (n =? 0)
  | Some (JString s) => negb (String.eqb s "")
  | Some JArray | Some JObject => true
  end.

(** The string held by a field known to be of [typeof] ["string"]. *)
Definition str (v : field) : string :=
  match v with
  | Some (JString s) => s
  | _ => ""
  end.

(** [interface TodoCreateBody] and [interface TodoUpdateBody]. The text is
    kept as the JSON value received, since both handlers test its type;
    [isCompleted] is taken at its declared type. A body that does not parse
    to an object makes the handler throw and answer 500; such a request is
    not a value of these types. *)
Record TodoCreateBody : Type := mkCreateBody {
  cb_todo : field;
  cb_isCompleted : option bool
}.

Record TodoUpdateBody : Type := mkUpdateBody {
  ub_todo : field;
  ub_isCompleted : option bool
}.

(** The object given to [.insert([...])]. *)
Record TodoInsert : Type := mkInsert {
  ins_todo : string;
  ins_is_completed : bool
}.

(** [interface TodoUpdateData]: the object given to [.update(...)]; an
    absent key is [None]. *)
Record TodoUpdateData : Type := mkUpdate {
  upd_todo : option string;
  upd_is_completed : option bool
}.

(** The JSON bodies the handlers answer with. *)
Inductive Body : Type :=
| ErrorBody (error : string)          (* { error } *)
| TodoBody (t : Api.Todo)             (* { success: true, todo } *)
| ListBody (l : list Api.Todo)        (* [ ...todos ] *)
| SuccessBody.                        (* { success: true } *)

(** [NextResponse.json(body, { status })] *)
Record Response : Type := mkResponse {
  status : Z;
  body : Body
}.

Definition json_response (b : Body) (st : Z) : Response := mkResponse st b.

(** [response.ok] *)
Definition ok (r : Response) : bool := (200 <=? status r) && (status r <=? 299).

(** The storage-to-API translation both route files repeat field by field. *)
Definition toApi (t : SupabaseTodo) : Api.Todo :=
  {| Api.id := id t;
     Api.todo := todo t;
     Api.isCompleted := is_completed t;
     Api.createdAt := created_at t |}.

(* ================================================================== *)
(** ** The database gateway *)

(** What a query resolves to: [{ data, error }] with exactly one of them set.
    The error carries the store's [code]. *)
Inductive PostgrestResponse (A : Type) : Type :=
| Data (data : A)
| Error (code : string).
Arguments Data {A} data.
Arguments Error {A} code.

(** One method per query built in the route files. A query that writes
    returns the store it leaves. [now] is the store's clock at the insert. *)
Class Gateway (DB : Type) : Type := {
  (** [.from('todos').select('*').order('created_at', { ascending: false })] *)
  select_order_created_at_desc : DB -> PostgrestResponse (list SupabaseTodo);
  (** [.from('todos').insert([row]).select()] *)
  insert_select : Z -> TodoInsert -> DB -> PostgrestResponse (list SupabaseTodo) * DB;
  (** [.from('todos').select('todo').ilike('todo', pattern).neq('id', id)] *)
  select_todo_ilike_neq : string -> string -> DB -> PostgrestResponse (list string);
  (** [.from('todos').update(updates).eq('id', id).select()] *)
  update_eq_select : TodoUpdateData -> string -> DB -> PostgrestResponse (list SupabaseTodo) * DB;
  (** [.from('todos').delete().eq('id', id)] *)
  delete_eq : string -> DB -> PostgrestResponse unit * DB
}.

(* ================================================================== *)
(** ** The route handlers *)

Section Handlers.

Context {DB : Type} {G : Gateway DB}.

(** [GET /api/todo] *)
Definition GET (db : DB) : Response :=
  match select_order_created_at_desc db with
  | Error _ => json_response (ErrorBody "Failed to fetch todos") 500
  | Data data => json_response (ListBody (map toApi data)) 200
  end.

(** [POST /api/todo]. Reading [data[0].id] of an empty [data] throws, which
    the handler's [catch] turns into the 500 answer. *)
Definition POST (now : Z) (body : TodoCreateBody) (db : DB) : Response * DB :=
  let todo := cb_todo body in
  let isCompleted := match cb_isCompleted body with Some b => b | None => false end in
  if negb (truthy todo) || negb (typeof todo =? "string")%string
     || (trim (str todo) =? "")%string
  then (json_response (ErrorBody "Todo text is required") 400, db)
  else
    match insert_select now
            {| ins_todo := trim (str todo); ins_is_completed := isCompleted |} db with
    | (Error code, db') =>
        if (code =? "23505")%string
        then (json_response (ErrorBody "Duplicate todo item") 409, db')
        else (json_response (ErrorBody "Failed to create todo") 500, db')
    | (Data [], db') => (json_response (ErrorBody "Failed to create todo") 500, db')
    | (Data (newTodo :: _), db') => (json_response (TodoBody (toApi newTodo)) 201, db')
    end.

(** The write of [PUT] and the answer built from its result
    (route.ts, lines 81-114). *)
Definition PUT_write (id : string) (updates : TodoUpdateData) (db : DB) : Response * DB :=
  match update_eq_select updates id db with
  | (Error _, db') => (json_response (ErrorBody "Failed to update todo") 500, db')
  | (Data [], db') => (json_response (ErrorBody "Todo not found") 404, db')
  | (Data (updatedTodo :: _), db') => (json_response (TodoBody (toApi updatedTodo)) 200, db')
  end.

(** [PUT /api/todo/[id]] *)
Definition PUT (id : string) (body : TodoUpdateBody) (db : DB) : Response * DB :=
  if (id =? "")%string
  then (json_response (ErrorBody "Todo ID is required") 400, db)
  else
    let todo := ub_todo body in
    let isCompleted := ub_isCompleted body in
    match todo with
    | Some _ =>
        if negb (typeof todo =? "string")%string || (trim (str todo) =? "")%string
        then (json_response (ErrorBody "Todo text cannot be empty") 400, db)
        else
          match select_todo_ilike_neq (trim (str todo)) id db with
          | Error _ => (json_response (ErrorBody "Failed to update todo") 500, db)
          | Data existingTodos =>
              if (0 <? List.length existingTodos)%nat
              then (json_response (ErrorBody "Duplicate todo item") 409, db)
              else PUT_write id {| upd_todo := Some (trim (str todo));
                                   upd_is_completed := isCompleted |} db
          end
    | None =>
        PUT_write id {| upd_todo := None; upd_is_completed := isCompleted |} db
    end.

(** [DELETE /api/todo/[id]] *)
Definition DELETE (id : string) (db : DB) : Response * DB :=
  if (id =? "")%string
  then (json_response (ErrorBody "Todo ID is required") 400, db)
  else
    match delete_eq id db with
    | (Error _, db') => (json_response (ErrorBody "Failed to delete todo") 500, db')
    | (Data _, db') => (json_response SuccessBody 200, db')
    end.

End Handlers.

(* ================================================================== *)
(** ** The hosted table *)

Module Pg.

(** The table [todos] in insertion order, and the generator of the next
    [id]. *)
Record Store : Type := mkStore {
  rows : list SupabaseTodo;
  next_id : nat
}.

Definition empty : Store := mkStore [] 1.

(** The identifier the store assigns at creation (the spec: "opaque unique
    identifier, assigned by the store"): the decimal numeral of the counter. *)
Definition gen_id (n : nat) : string := NilEmpty.string_of_uint (Nat.to_uint n).

(** Modelled from the spec: the declaration of table [todos] is not part of
    the sources. The spec states that the text "must be unique
    case-insensitively across all todos (enforced at the store via a
    uniqueness constraint)"; [POST] reads the violation as code [23505].
    The constraint is taken as a unique index over the case-folded text. *)
Definition index_key (text : string) : string := toLowerCase text.

Fixpoint unique (keys : list string) : bool :=
  match keys with
  | [] => true
  | k :: keys' => negb (existsb (String.eqb k) keys') && unique keys'
  end.

Definition keys_of (l : list SupabaseTodo) : list string :=
  map (fun r => index_key (todo r)) l.

(** [ORDER BY created_at DESC]: a stable insertion sort. The store leaves
    the order of rows with equal [created_at] open; the model lists them in
    the order of [rows]. *)
Fixpoint insert_desc (r : SupabaseTodo) (l : list SupabaseTodo) : list SupabaseTodo :=
  match l with
  | [] => [r]
  | x :: l' => if created_at x <=? created_at r then r :: l else x :: insert_desc r l'
  end.

Definition order_created_at_desc (l : list SupabaseTodo) : list SupabaseTodo :=
  fold_right insert_desc [] l.

(** *** Pattern matching of [ILIKE]

    [%] matches any run of characters, [_] any one character, a backslash
    makes the next pattern character stand for itself, every other
    character matches itself up to letter case (of [A-Z]; the server folds
    with its locale). A pattern that ends in a lone backslash raises an
    error when the match reaches it with text left to consume. The server
    also looks ahead after a [%]: there it can raise that error where this
    matcher answers [LikeFalse]; the two agree on every pattern without a
    dangling backslash. *)
Inductive LikeResult : Type := LikeTrue | LikeFalse | LikeError.

Definition same_char_ci (a b : ascii) : bool := Ascii.eqb (lower_char a) (lower_char b).

Fixpoint like (p : string) : string -> LikeResult :=
  match p with
  | EmptyString =>
      fun s => match s with EmptyString => LikeTrue | String _ _ => LikeFalse end
  | String c p1 =>
      if Ascii.eqb c "\"%char then
        match p1 with
        | EmptyString =>
            fun s => match s with EmptyString => LikeFalse | String _ _ => LikeError end
        | String e p2 =>
            fun s => match s with
                     | EmptyString => LikeFalse
                     | String x s' => if same_char_ci x e then like p2 s' else LikeFalse
                     end
        end
      else if Ascii.eqb c "%"%char then
        fix scan (s : string) : LikeResult :=
          match like p1 s with
          | LikeFalse => match s with EmptyString => LikeFalse | String _ s' => scan s' end
          | r => r
          end
      else if Ascii.eqb c "_"%char then
        fun s => match s with EmptyString => LikeFalse | String _ s' => like p1 s' end
      else
        fun s => match s with
                 | EmptyString => LikeFalse
                 | String x s' => if same_char_ci x c then like p1 s' else LikeFalse
                 end
  end.

(** The gateway's filter syntax reads [*] in a pattern as [%]. *)
Fixpoint star (p : string) : string :=
  match p with
  | EmptyString => EmptyString
  | String c p' => String (if Ascii.eqb c "*"%char then "%"%char else c) (star p')
  end.

(** [text ILIKE pattern], for a pattern given through [.ilike(column, pattern)]. *)
Definition ilike (pattern text : string) : LikeResult := like (star pattern) text.

Definition is_true (r : LikeResult) : bool :=
  match r with LikeTrue => true | _ => false end.

Definition is_error (r : LikeResult) : bool :=
  match r with LikeError => true | _ => false end.

(** [SELECT * FROM todos ORDER BY created_at DESC] *)
Definition select_order (st : Store) : PostgrestResponse (list SupabaseTodo) :=
  Data (order_created_at_desc (rows st)).

(** [INSERT INTO todos (todo, is_completed) VALUES (...) RETURNING *]: the
    store assigns [id] and [created_at]; the unique index refuses a text
    whose key is already present. A text with a NUL character, which the
    server refuses, is not told apart. *)
Definition insert (now : Z) (v : TodoInsert) (st : Store)
  : PostgrestResponse (list SupabaseTodo) * Store :=
  if existsb (fun r => (index_key (todo r) =? index_key (ins_todo v))%string) (rows st)
  then (Error "23505", st)
  else
    let r := mkRow (gen_id (next_id st)) (ins_todo v) (ins_is_completed v) now in
    (Data [r], mkStore (rows st ++ [r]) (S (next_id st))).

(** [SELECT todo FROM todos WHERE todo ILIKE pattern AND id <> i]. The
    pattern is matched on every row; an error on any row fails the query
    (code [22025], invalid escape sequence). *)
Definition select_ilike_neq (pattern i : string) (st : Store)
  : PostgrestResponse (list string) :=
  if existsb (fun r => is_error (ilike pattern (todo r))) (rows st)
  then Error "22025"
  else Data (map todo
               (filter (fun r => is_true (ilike pattern (todo r))
                                 && negb (id r =? i)%string) (rows st))).

Definition apply_update (u : TodoUpdateData) (r : SupabaseTodo) : SupabaseTodo :=
  mkRow (id r)
        (match upd_todo u with Some t => t | None => todo r end)
        (match upd_is_completed u with Some b => b | None => is_completed r end)
        (created_at r).

Definition update_rows (u : TodoUpdateData) (i : string) (l : list SupabaseTodo)
  : list SupabaseTodo :=
  map (fun r => if (id r =? i)%string then apply_update u r else r) l.

(** The number of rows of [l] whose text has key [k]. *)
Definition count_key (k : string) (l : list SupabaseTodo) : nat :=
  List.length (filter (fun r => (index_key (todo r) =? k)%string) l).

(** The unique index refuses a statement that leaves a row it wrote (one
    with [id = i]) sharing its key with another row. *)
Definition violates (i : string) (after : list SupabaseTodo) : bool :=
  existsb (fun r => (id r =? i)%string
                    && (1 <? count_key (index_key (todo r)) after)%nat) after.

(** [UPDATE todos SET ... WHERE id = i RETURNING *]. With no column to set
    the gateway sends no [UPDATE] at all and answers with the empty set. A
    new text is checked against the unique index. *)
Definition update (u : TodoUpdateData) (i : string) (st : Store)
  : PostgrestResponse (list SupabaseTodo) * Store :=
  match upd_todo u, upd_is_completed u with
  | None, None => (Data [], st)
  | _, _ =>
      let after := update_rows u i (rows st) in
      match upd_todo u with
      | Some _ =>
          if violates i after
          then (Error "23505", st)
          else (Data (filter (fun r => (id r =? i)%string) after),
                mkStore after (next_id st))
      | None =>
          (Data (filter (fun r => (id r =? i)%string) after),
           mkStore after (next_id st))
      end
  end.

(** [DELETE FROM todos WHERE id = i] *)
Definition delete (i : string) (st : Store) : PostgrestResponse unit * Store :=
  (Data tt, mkStore (filter (fun r => negb (id r =? i)%string) (rows st)) (next_id st)).

End Pg.

#[export] Instance PgStore : Gateway Pg.Store := {
  select_order_created_at_desc := Pg.select_order;
  insert_select := Pg.insert;
  select_todo_ilike_neq := Pg.select_ilike_neq;
  update_eq_select := Pg.update;
  delete_eq := Pg.delete
}.

(** A gateway that differs from [PgStore] in one point: an update with no
    column to set is run as a plain [UPDATE] and returns the addressed rows
    unchanged. *)
Record PlainUpdateStore : Type := mkPlain { plain : Pg.Store }.

Definition plain_update (u : TodoUpdateData) (i : string) (p : PlainUpdateStore)
  : PostgrestResponse (list SupabaseTodo) * PlainUpdateStore :=
  match upd_todo u, upd_is_completed u with
  | None, None =>
      (Data (filter (fun r => (id r =? i)%string) (Pg.rows (plain p))), p)
  | _, _ => let (r, st) := Pg.update u i (plain p) in (r, mkPlain st)
  end.

#[export] Instance PlainStore : Gateway PlainUpdateStore := {
  select_order_created_at_desc := fun p => Pg.select_order (plain p);
  insert_select := fun now v p => let (r, st) := Pg.insert now v (plain p) in (r, mkPlain st);
  select_todo_ilike_neq := fun pat i p => Pg.select_ilike_neq pat i (plain p);
  update_eq_select := plain_update;
  delete_eq := fun i p => let (r, st) := Pg.delete i (plain p) in (r, mkPlain st)
}.

(* ================================================================== *)
(** ** The client view (page.tsx) *)

(** The [useState] cells of [Home]. *)
Record ClientState : Type := mkClient {
  todos : list Api.Todo;
  inputValue : string;
  editingId : option string;
  hoveredId : option string;
  filterText : string;
  error : option string;
  loading : bool
}.

Definition setTodos (l : list Api.Todo) (cs : ClientState) : ClientState :=
  mkClient l (inputValue cs) (editingId cs) (hoveredId cs) (filterText cs)
           (error cs) (loading cs).

Definition setError (e : option string) (cs : ClientState) : ClientState :=
  mkClient (todos cs) (inputValue cs) (editingId cs) (hoveredId cs) (filterText cs)
           e (loading cs).

(** [data.error] of a parsed answer. *)
Definition data_error (b : Body) : option string :=
  match b with ErrorBody e => Some e | _ => None end.

Section Client.

Context {DB : Type} {G : Gateway DB}.

(** [createTodo]: the request goes to [POST]; the answer decides the new
    state and the boolean returned. The timer that clears the banner after
    three seconds is left out. *)
Definition createTodo (todoText : string) (now : Z) (cs : ClientState) (db : DB)
  : bool * ClientState * DB :=
  let (response, db') :=
    POST now {| cb_todo := Some (JString todoText); cb_isCompleted := None |} db in
  if status response =? 409 then
    (false, setError (data_error (body response)) cs, db')
  else if ok response then
    match body response with
    | TodoBody t => (true, setTodos (t :: todos cs) cs, db')
    | _ => (true, cs, db')
    end
  else (false, cs, db').

End Client.

(** [filteredTodos], the list the page renders. *)
Definition filteredTodos (cs : ClientState) : list Api.Todo :=
  filter (fun t => includes (toLowerCase (Api.todo t)) (toLowerCase (filterText cs)))
         (todos cs).

(* ================================================================== *)
(** ** Predicates used in the statements *)

(** [s] is its own [trim]. *)
Definition trimmed (s : string) : Prop := trim s = s.

(** The invariant of the data model on the table: every text is trimmed and
    non-empty, and no two rows share a key. *)
Definition store_wf (st : Pg.Store) : Prop :=
  Forall (fun r => trimmed (todo r) /\ todo r <> "") (Pg.rows st)
  /\ Pg.unique (Pg.keys_of (Pg.rows st)) = true.


(** The text of a create request that [POST] must refuse: absent, not a
    string, or empty once trimmed. *)
Definition text_missing_or_blank (v : field) : Prop :=
  match v with
  | None => True
  | Some (JString s) => trim s = ""
  | Some _ => True
  end.

(** Row [a] is not older than row [b]. *)
Definition newer_first (a b : SupabaseTodo) : Prop := created_at a >= created_at b.

(** [f] occurs in [s] up to letter case. *)
Definition ci_substring (f s : string) : Prop :=
  exists pre mid post, s = pre ++ mid ++ post /\ ci_eq mid f.

(** The stores the handlers can build from the empty table. *)
Inductive reachable : Pg.Store -> Prop :=
| reach_empty : reachable Pg.empty
| reach_POST now body st : reachable st -> reachable (snd (POST now body st))
| reach_PUT i body st : reachable st -> reachable (snd (PUT i body st))
| reach_DELETE i st : reachable st -> reachable (snd (DELETE i st)).

(** [c] occurs in [s]. *)
Fixpoint has_char (c : ascii) (s : string) : bool :=
  match s with
  | EmptyString => false
  | String x s' => Ascii.eqb x c || has_char c s'
  end.

(** A pattern whose last backslash has a character to escape. *)
Fixpoint escapes_closed (p : string) : bool :=
  match p with
  | EmptyString => true
  | String c p1 =>
      if Ascii.eqb c "\"%char then
        match p1 with
        | EmptyString => false
        | String _ p2 => escapes_closed p2
        end
      else escapes_closed p1
  end.


(* ================================================================== *)
(** ** The client view: the remaining actions (page.tsx) *)

Definition setLoading (b : bool) (cs : ClientState) : ClientState :=
  mkClient (todos cs) (inputValue cs) (editingId cs) (hoveredId cs) (filterText cs)
           (error cs) b.

Definition setInputValue (v : string) (cs : ClientState) : ClientState :=
  mkClient (todos cs) v (editingId cs) (hoveredId cs) (filterText cs)
           (error cs) (loading cs).

Definition setEditingId (e : option string) (cs : ClientState) : ClientState :=
  mkClient (todos cs) (inputValue cs) e (hoveredId cs) (filterText cs)
           (error cs) (loading cs).

Definition setFilterText (v : string) (cs : ClientState) : ClientState :=
  mkClient (todos cs) (inputValue cs) (editingId cs) (hoveredId cs) v
           (error cs) (loading cs).

(** [Partial<Todo>], the [updates] argument of [updateTodo]. *)
Record PartialTodo : Type := mkPartial {
  p_id : option string;
  p_todo : option string;
  p_isCompleted : option bool;
  p_createdAt : option Z
}.

(** What [PUT] reads of [JSON.stringify(updates)]: the keys [todo] and
    [isCompleted]. *)
Definition update_body (updates : PartialTodo) : TodoUpdateBody :=
  mkUpdateBody (option_map JString (p_todo updates)) (p_isCompleted updates).

(** The decimal text of a status in a template string. *)
Definition status_text (s : Z) : string := NilZero.string_of_int (Z.to_int s).

(** Truthiness of [editingId] ([string | null]). *)
Definition editing (cs : ClientState) : bool :=
  match editingId cs with
  | Some e => negb (e =? "")%string
  | None => false
  end.

Section ClientActions.

Context {DB : Type} {G : Gateway DB}.

(** [fetchTodos]: the request goes to [GET]. A list handler answers 2xx
    only with an array. The [catch] branch needs a failing [fetch] and is
    left out. *)
Definition fetchTodos (cs : ClientState) (db : DB) : ClientState :=
  let cs1 := setLoading true cs in
  let response := GET db in
  let cs2 :=
    if ok response then
      match body response with
      | ListBody data => setTodos data cs1
      | _ => cs1
      end
    else cs1 in
  setLoading false cs2.

(** [updateTodo]: the request goes to [PUT]. *)
Definition updateTodo (id : string) (updates : PartialTodo) (cs : ClientState) (db : DB)
  : bool * ClientState * DB :=
  let (response, db') := PUT id (update_body updates) db in
  if status response =? 409 then
    (false, setError (data_error (body response)) cs, db')
  else if ok response then
    match body response with
    | TodoBody t =>
        (true,
         setTodos (map (fun todo => if (Api.id todo =? id)%string then t else todo)
                       (todos cs)) cs,
         db')
    | _ => (true, cs, db')
    end
  else
    (false, setError (Some ("Update failed: " ++ status_text (status response))) cs, db').


(** [handleAddTodo] *)
Definition handleAddTodo (now : Z) (cs : ClientState) (db : DB) : ClientState * DB :=
  let trimmedValue := trim (inputValue cs) in
  if (trimmedValue =? "")%string then
    (setError (Some "Todo cannot be empty") cs, db)
  else
    let '(success, cs', db') := createTodo trimmedValue now cs db in
    if success then (setFilterText "" (setInputValue "" cs'), db') else (cs', db').

(** [handleSubmit] *)
Definition handleSubmit (now : Z) (cs : ClientState) (db : DB) : ClientState * DB :=
  let trimmedValue := trim (inputValue cs) in
  if (trimmedValue =? "")%string then
    (setError (Some "Todo cannot be empty") cs, db)
  else if editing cs then
    let '(success, cs', db') :=
      updateTodo (match editingId cs with Some e => e | None => "" end)
                 (mkPartial None (Some trimmedValue) None None) cs db in
    if success
    then (setFilterText "" (setInputValue "" (setEditingId None cs')), db')
    else (cs', db')
  else
    let '(success, cs', db') := createTodo trimmedValue now cs db in
    if success then (setFilterText "" (setInputValue "" cs'), db') else (cs', db').

(** [handleKeyPress], on the [key] of the event. *)
Definition handleKeyPress (key : string) (now : Z) (cs : ClientState) (db : DB)
  : ClientState * DB :=
  if (key =? "Enter")%string then handleSubmit now cs db else (cs, db).

(** [toggleCompletion] *)
Definition toggleCompletion (id : string) (isCompleted : bool) (cs : ClientState) (db : DB)
  : ClientState * DB :=
  let '(_, cs', db') :=
    updateTodo id (mkPartial None None (Some (negb isCompleted)) None) cs db in
  (cs', db').

End ClientActions.

(** [startEditing] *)
Definition startEditing (todo : Api.Todo) (cs : ClientState) : ClientState :=
  setFilterText "" (setInputValue (Api.todo todo) (setEditingId (Some (Api.id todo)) cs)).

(** [cancelEditing] *)
Definition cancelEditing (cs : ClientState) : ClientState :=
  setFilterText "" (setInputValue "" (setEditingId None cs)).

(** [handleInputChange], on [e.target.value]. *)
Definition handleInputChange (value : string) (cs : ClientState) : ClientState :=
  let cs1 := setInputValue value cs in
  if negb (editing cs) then setFilterText value cs1 else cs1.

(** The three counters of the statistics panel (page.tsx, lines 633-649). *)
Definition totalCount (cs : ClientState) : nat := List.length (todos cs).

Definition completedCount (cs : ClientState) : nat :=
  List.length (filter (fun t => Api.isCompleted t) (todos cs)).

Definition pendingCount (cs : ClientState) : nat :=
  List.length (filter (fun t => negb (Api.isCompleted t)) (todos cs)).

(** The cached list is the list the server would answer with. *)
Definition in_sync {DB : Type} {G : Gateway DB} (cs : ClientState) (db : DB) : Prop :=
  GET db = json_response (ListBody (todos cs)) 200.

(** A text with none of the characters the pattern syntax reads. *)
Definition plain_text (s : string) : bool :=
  negb (has_char "\"%char s) && negb (has_char "%"%char s)
  && negb (has_char "_"%char s) && negb (has_char "*"%char s).

(* ================================================================== *)
(** ** Where the string model is the code

    [trim], [toLowerCase] and the store's case folding are modelled on
    ASCII. On a text made of ASCII characters other than NUL they are the
    functions of the code; a statement that depends on them beyond that
    carries [ascii_text] as a hypothesis. *)

Definition ascii_char (c : ascii) : bool :=
  let n := nat_of_ascii c in ((0 <? n) && (n <? 128))%nat.

Fixpoint ascii_text (s : string) : bool :=
  match s with
  | EmptyString => true
  | String c s' => ascii_char c && ascii_text s'
  end.

(** Every text of the table, of the cache, is such a text. *)
Definition ascii_table (l : list SupabaseTodo) : Prop :=
  Forall (fun r => ascii_text (todo r) = true) l.

Definition ascii_cache (l : list Api.Todo) : Prop :=
  Forall (fun t => ascii_text (Api.todo t) = true) l.

(** "Up to letter case", stated on the characters and not through a
    folding function: two characters are the same letter when they are
    equal or when one is a capital [A-Z] and the other its small letter. *)
Definition is_upper (c : ascii) : bool :=
  let n := nat_of_ascii c in ((65 <=? n) && (n <=? 90))%nat.

Definition same_letter (c d : ascii) : Prop :=
  c = d
  \/ (is_upper c = true /\ nat_of_ascii d = (nat_of_ascii c + 32)%nat)
  \/ (is_upper d = true /\ nat_of_ascii c = (nat_of_ascii d + 32)%nat).

Inductive eq_up_to_case : string -> string -> Prop :=
| eq_case_nil : eq_up_to_case "" ""
| eq_case_cons (c d : ascii) (s t : string) :
    same_letter c d -> eq_up_to_case s t -> eq_up_to_case (String c s) (String d t).

(** [f] occurs in [s] up to letter case. *)
Definition occurs_up_to_case (f s : string) : Prop :=
  exists pre mid post, s = pre ++ mid ++ post /\ eq_up_to_case mid f.

(* ================================================================== *)
(** ** Strings: trimming, case folding, substrings *)

Section StringFacts.

Lemma trimEnd_idempotent (s : string) : trimEnd (trimEnd s) = trimEnd s.
Proof.
  induction s as [|c s IH]; simpl; [reflexivity|].
  destruct (trimEnd s) as [|d r] eqn:E.
  - destruct (is_space c) eqn:Hc; simpl; [reflexivity|]. now rewrite Hc.
  - change (trimEnd (String c (String d r))) with
      (match trimEnd (String d r) with
       | EmptyString => if is_space c then EmptyString else String c EmptyString
       | String a b => String c (String a b)
       end).
    now rewrite IH.
Qed.

Lemma trimEnd_keeps_head (c : ascii) (s : string) :
  is_space c = false -> trimEnd (String c s) = String c (trimEnd s).
Proof.
  intros Hc. simpl. destruct (trimEnd s); [now rewrite Hc | reflexivity].
Qed.

Lemma trimStart_head (s : string) :
  trimStart s = "" \/ exists c r, trimStart s = String c r /\ is_space c = false.
Proof.
  induction s as [|c s IH]; simpl; [now left|].
  destruct (is_space c) eqn:Hc; [exact IH|]. right. now exists c, s.
Qed.

Lemma trim_idempotent (s : string) : trim (trim s) = trim s.
Proof.
  unfold trim. destruct (trimStart_head s) as [E | (c & r & E & Hc)]; rewrite E.
  - reflexivity.
  - rewrite (trimEnd_keeps_head c r Hc). simpl trimStart. rewrite Hc.
    rewrite <- (trimEnd_keeps_head c r Hc). apply trimEnd_idempotent.
Qed.

Lemma toLowerCase_app (a b : string) :
  toLowerCase (a ++ b) = toLowerCase a ++ toLowerCase b.
Proof. induction a as [|c a IH]; simpl; [reflexivity | now rewrite IH]. Qed.


Lemma toLowerCase_empty (s : string) : toLowerCase s = "" -> s = "".
Proof. destruct s; simpl; [reflexivity | discriminate]. Qed.

Lemma toLowerCase_split (s a b : string) :
  toLowerCase s = a ++ b ->
  exists x y, s = x ++ y /\ toLowerCase x = a /\ toLowerCase y = b.
Proof.
  revert s. induction a as [|c a IH]; intros s H.
  - exists "", s. now simpl in *.
  - destruct s as [|d s]; simpl in H; [discriminate|].
    injection H as Hd Hs. destruct (IH _ Hs) as (x & y & -> & Hx & Hy).
    exists (String d x), y. simpl. now rewrite Hd, Hx.
Qed.

Lemma startsWith_spec (s p : string) :
  startsWith s p = true <-> exists post, s = p ++ post.
Proof.
  revert s. induction p as [|a p IH]; intros s; simpl.
  - split; [intros _; now exists s | reflexivity].
  - destruct s as [|b s].
    + split; [discriminate | intros (post & H); discriminate].
    + rewrite andb_true_iff, Ascii.eqb_eq, IH. split.
      * intros (-> & post & ->). now exists post.
      * intros (post & H). injection H as -> ->. split; [reflexivity | now exists post].
Qed.

Lemma includes_spec (s p : string) :
  includes s p = true <-> exists pre post, s = pre ++ p ++ post.
Proof.
  induction s as [|c s IH].
  - simpl. rewrite orb_false_r, startsWith_spec. split.
    + intros (post & H). now exists "", post.
    + intros (pre & post & H). destruct pre; simpl in H.
      * now exists post.
      * discriminate.
  - change (includes (String c s) p) with (startsWith (String c s) p || includes s p).
    rewrite orb_true_iff, startsWith_spec, IH. split.
    + intros [(post & H) | (pre & post & H)].
      * now exists "", post.
      * exists (String c pre), post. simpl. now rewrite H.
    + intros (pre & post & H). destruct pre as [|d pre]; simpl in H.
      * left. now exists post.
      * right. injection H as _ H. now exists pre, post.
Qed.

Lemma includes_empty (s : string) : includes s "" = true.
Proof. destruct s; reflexivity. Qed.

(** The test of [filteredTodos] decides [ci_substring]. *)
Lemma includes_lower_iff (s f : string) :
  includes (toLowerCase s) (toLowerCase f) = true <-> ci_substring f s.
Proof.
  rewrite includes_spec. unfold ci_substring, ci_eq. split.
  - intros (pre & post & H).
    destruct (toLowerCase_split _ _ _ H) as (x & y & -> & Hx & Hy).
    destruct (toLowerCase_split _ _ _ Hy) as (m & z & -> & Hm & Hz).
    now exists x, m, z.
  - intros (pre & mid & post & -> & H).
    exists (toLowerCase pre), (toLowerCase post).
    now rewrite !toLowerCase_app, H.
Qed.

Lemma ci_eqb_spec (a b : string) : ci_eqb a b = true <-> ci_eq a b.
Proof. unfold ci_eqb, ci_eq. apply String.eqb_eq. Qed.

Lemma eqb_nonempty (i : string) : i <> "" -> (i =? "")%string = false.
Proof. intros H. now apply String.eqb_neq. Qed.

End StringFacts.

(* ================================================================== *)
(** ** The ordering of the list query *)

Section Ordering.

Lemma insert_desc_perm (r : SupabaseTodo) (l : list SupabaseTodo) :
  Permutation (Pg.insert_desc r l) (r :: l).
Proof.
  induction l as [|x l IH]; simpl; [apply Permutation_refl|].
  destruct (created_at x <=? created_at r); [apply Permutation_refl|].
  eapply perm_trans; [apply perm_skip, IH | apply perm_swap].
Qed.

Lemma order_created_at_desc_perm (l : list SupabaseTodo) :
  Permutation (Pg.order_created_at_desc l) l.
Proof.
  induction l as [|r l IH]; simpl; [constructor|].
  eapply perm_trans; [apply insert_desc_perm | now apply perm_skip].
Qed.

Lemma insert_desc_sorted (r : SupabaseTodo) (l : list SupabaseTodo) :
  StronglySorted newer_first l -> StronglySorted newer_first (Pg.insert_desc r l).
Proof.
  unfold newer_first. induction 1 as [|x l Hs IH Hx]; simpl.
  - repeat constructor.
  - destruct (created_at x <=? created_at r) eqn:E.
    + apply Z.leb_le in E. constructor; [now constructor|].
      constructor; [lia|]. eapply Forall_impl; [|exact Hx]. simpl. intros; lia.
    + apply Z.leb_gt in E. constructor; [exact IH|].
      eapply Permutation_Forall; [apply Permutation_sym, insert_desc_perm|].
      constructor; [lia | exact Hx].
Qed.

Lemma order_created_at_desc_sorted (l : list SupabaseTodo) :
  StronglySorted newer_first (Pg.order_created_at_desc l).
Proof.
  induction l as [|r l IH]; simpl; [constructor | now apply insert_desc_sorted].
Qed.

Lemma sorted_map_toApi (l : list SupabaseTodo) :
  StronglySorted newer_first l ->
  StronglySorted (fun a b => Api.createdAt a >= Api.createdAt b) (map toApi l).
Proof.
  induction 1 as [|x l Hs IH Hx]; simpl; constructor; [exact IH|].
  apply Forall_map. exact Hx.
Qed.

(** Sorting commutes with a rewrite of the rows that keeps [created_at]. *)
Lemma insert_desc_map (f : SupabaseTodo -> SupabaseTodo) (r : SupabaseTodo)
      (l : list SupabaseTodo) :
  (forall x, created_at (f x) = created_at x) ->
  Pg.insert_desc (f r) (map f l) = map f (Pg.insert_desc r l).
Proof.
  intros Hf. induction l as [|x l IH]; simpl; [reflexivity|].
  rewrite !Hf. destruct (created_at x <=? created_at r); simpl; [reflexivity|].
  now rewrite IH.
Qed.

Lemma order_created_at_desc_map (f : SupabaseTodo -> SupabaseTodo)
      (l : list SupabaseTodo) :
  (forall x, created_at (f x) = created_at x) ->
  Pg.order_created_at_desc (map f l) = map f (Pg.order_created_at_desc l).
Proof.
  intros Hf. induction l as [|x l IH]; simpl; [reflexivity|].
  rewrite IH. now apply insert_desc_map.
Qed.

(** C6. For every state of the store the list operation answers 200 with
    all the todos, newest first: the answer is a permutation of the table's
    rows, sorted by [createdAt] in descending order, and every record
    carries its row's [id], [todo], [is_completed] (as [isCompleted]) and
    [created_at] (as [createdAt]). *)
Theorem GET_lists_all_newest_first (st : Pg.Store) :
  exists l : list Api.Todo,
    GET st = json_response (ListBody l) 200
    /\ Permutation l (map toApi (Pg.rows st))
    /\ StronglySorted (fun a b => Api.createdAt a >= Api.createdAt b) l
    /\ (forall t, In t l ->
          exists r, In r (Pg.rows st)
                    /\ Api.id t = id r /\ Api.todo t = todo r
                    /\ Api.isCompleted t = is_completed r
                    /\ Api.createdAt t = created_at r).
Proof.
  exists (map toApi (Pg.order_created_at_desc (Pg.rows st))).
  split; [reflexivity|]. split; [|split].
  - apply Permutation_map, order_created_at_desc_perm.
  - apply sorted_map_toApi, order_created_at_desc_sorted.
  - intros t Ht. apply in_map_iff in Ht. destruct Ht as (r & <- & Hr).
    exists r. split; [|now simpl].
    eapply Permutation_in; [apply order_created_at_desc_perm | exact Hr].
Qed.

End Ordering.

(* ================================================================== *)
(** ** Delete *)

Section Delete.

Lemma filter_all (A : Type) (f : A -> bool) (l : list A) :
  (forall x, In x l -> f x = true) -> filter f l = l.
Proof.
  induction l as [|x l IH]; simpl; intros H; [reflexivity|].
  rewrite (H x (or_introl eq_refl)), IH; [reflexivity|]. intros y Hy. apply H. now right.
Qed.

Lemma filter_idempotent (A : Type) (f : A -> bool) (l : list A) :
  filter f (filter f l) = filter f l.
Proof.
  apply filter_all. intros x Hx. now apply filter_In in Hx.
Qed.

(** C5. Delete is idempotent. For every id that is a path segment (not
    empty) the answer is 200 with [{success: true}] whether or not a row
    with that id exists, and the rows left are the rows of other ids. For
    every id at all: the answer does not depend on the store, so it is the
    same when no row has the id as when one has; when no row has the id the
    store is left as it was; a second delete of the same id gives the
    answer of the first and changes nothing. *)
Theorem DELETE_idempotent (i : string) (st : Pg.Store) :
  (i <> "" ->
   fst (DELETE i st) = json_response SuccessBody 200
   /\ forall r, In r (Pg.rows (snd (DELETE i st))) <-> In r (Pg.rows st) /\ id r <> i)
  /\ (forall st2 : Pg.Store, fst (DELETE i st2) = fst (DELETE i st))
  /\ ((forall r, In r (Pg.rows st) -> id r <> i) -> snd (DELETE i st) = st)
  /\ DELETE i (snd (DELETE i st)) = (fst (DELETE i st), snd (DELETE i st)).
Proof.
  unfold DELETE. destruct (i =? "")%string eqn:E.
  - apply String.eqb_eq in E. repeat split; try reflexivity; contradiction.
  - cbn [delete_eq PgStore Pg.delete fst snd Pg.rows Pg.next_id].
    split; [|split; [|split]].
    + intros _. split; [reflexivity|]. intros r.
      rewrite filter_In, negb_true_iff, String.eqb_neq. reflexivity.
    + reflexivity.
    + intros H. destruct st as [l n]. cbn [Pg.rows Pg.next_id]. f_equal.
      apply filter_all. intros r Hr. apply negb_true_iff, String.eqb_neq. now apply H.
    + now rewrite filter_idempotent.
Qed.

Lemma DELETE_idempotent_witness :
  let st := Pg.mkStore [mkRow "7" "Write spec" false 3] 8 in
  fst (DELETE "7" st) = json_response SuccessBody 200
  /\ fst (DELETE "7" (snd (DELETE "7" st))) = json_response SuccessBody 200
  /\ snd (DELETE "8" st) = st.
Proof.
  intros st.
  assert (H : "7" <> "") by discriminate.
  pose proof (DELETE_idempotent "7" st) as H7.
  pose proof (DELETE_idempotent "8" st) as H8.
  split; [exact (proj1 (proj1 H7 H))|]. split.
  - exact (f_equal fst (proj2 (proj2 (proj2 H7)))).
  - apply (proj1 (proj2 (proj2 H8))). intros r [<- | []]. discriminate.
Defined.

End Delete.

(* ================================================================== *)
(** ** Create *)

Section Create.

Lemma trim_nonempty (s : string) : trim s <> "" -> s <> "".
Proof. intros H ->. now apply H. Qed.

(** A refused text never reaches the gateway, whatever the gateway is. *)
Lemma POST_refuses_blank (DB : Type) (G : Gateway DB) (now : Z)
      (body : TodoCreateBody) (db : DB) :
  text_missing_or_blank (cb_todo body) ->
  POST now body db = (json_response (ErrorBody "Todo text is required") 400, db).
Proof.
  unfold POST, text_missing_or_blank.
  destruct (cb_todo body) as [[| b | n | s | |]|]; intros H; try reflexivity.
  - destruct b; reflexivity.
  - cbn [truthy typeof]. now rewrite orb_true_r.
  - cbn [str]. rewrite H. now rewrite orb_true_r.
Qed.

(** What [POST] does with a text that passes the validation. *)
Lemma POST_valid_text (now : Z) (s : string) (c : option bool) (st : Pg.Store) :
  trim s <> "" ->
  POST now (mkCreateBody (Some (JString s)) c) st =
  if existsb (fun r => (Pg.index_key (todo r) =? Pg.index_key (trim s))%string) (Pg.rows st)
  then (json_response (ErrorBody "Duplicate todo item") 409, st)
  else
    let r := mkRow (Pg.gen_id (Pg.next_id st)) (trim s)
                   (match c with Some b => b | None => false end) now in
    (json_response (TodoBody (toApi r)) 201,
     Pg.mkStore ((Pg.rows st ++ [r])%list) (S (Pg.next_id st))).
Proof.
  intros H. unfold POST. cbn [cb_todo cb_isCompleted truthy typeof str].
  apply trim_nonempty in H as Hs.
  apply String.eqb_neq in H. apply String.eqb_neq in Hs. rewrite H, Hs.
  cbn [negb orb String.eqb Ascii.eqb Bool.eqb andb].
  cbn [insert_select PgStore]. unfold Pg.insert. cbn [ins_todo ins_is_completed].
  destruct (existsb _ (Pg.rows st)); reflexivity.
Qed.

End Create.

(* ================================================================== *)
(** ** Update: the paths that do not depend on the text *)

Section UpdateBasics.

(** The three answers [PUT_write] can give. *)
Lemma PUT_write_status (DB : Type) (G : Gateway DB) (i : string)
      (u : TodoUpdateData) (db : DB) :
  status (fst (PUT_write i u db)) = 500
  \/ status (fst (PUT_write i u db)) = 404
  \/ status (fst (PUT_write i u db)) = 200.
Proof.
  unfold PUT_write. destruct (update_eq_select u i db) as [[[|x l] | code] db']; simpl; auto.
Qed.

Lemma PUT_write_store (i : string) (u : TodoUpdateData) (st : Pg.Store) :
  snd (PUT_write i u st) = snd (Pg.update u i st).
Proof.
  unfold PUT_write. cbn [update_eq_select PgStore].
  destruct (Pg.update u i st) as [[[|x l] | code] st']; reflexivity.
Qed.

(** C9. A body with neither [todo] nor [isCompleted] is not refused. For
    every gateway and every non-empty id the handler issues the update with
    the empty field set and answers from what the gateway returns: 500 on an
    error, 404 on no row, 200 with the first row otherwise; never 400. The
    answer therefore follows the gateway's treatment of an empty update: on
    the same table [PgStore] leads to 404 and [PlainStore] to 200. *)
Theorem PUT_empty_body_reaches_store (DB : Type) (G : Gateway DB) (i : string)
        (db : DB) (Hid : i <> "") :
  PUT i (mkUpdateBody None None) db = PUT_write i (mkUpdate None None) db
  /\ match update_eq_select (mkUpdate None None) i db with
     | (Error _, db') =>
         PUT i (mkUpdateBody None None) db
         = (json_response (ErrorBody "Failed to update todo") 500, db')
     | (Data [], db') =>
         PUT i (mkUpdateBody None None) db
         = (json_response (ErrorBody "Todo not found") 404, db')
     | (Data (updatedTodo :: _), db') =>
         PUT i (mkUpdateBody None None) db
         = (json_response (TodoBody (toApi updatedTodo)) 200, db')
     end
  /\ status (fst (PUT i (mkUpdateBody None None) db)) <> 400
  /\ (let st := Pg.mkStore [mkRow "1" "Write spec" false 10] 2 in
      status (fst (PUT "1" (mkUpdateBody None None) st)) = 404
      /\ status (fst (PUT "1" (mkUpdateBody None None) (mkPlain st))) = 200).
Proof.
  assert (E : PUT i (mkUpdateBody None None) db = PUT_write i (mkUpdate None None) db).
  { unfold PUT. now rewrite (eqb_nonempty i Hid). }
  split; [exact E|]. split; [|split].
  - rewrite E. unfold PUT_write.
    destruct (update_eq_select _ i db) as [[[|x l] | code] db']; reflexivity.
  - rewrite E. destruct (PUT_write_status DB G i (mkUpdate None None) db) as [H | [H | H]];
      rewrite H; discriminate.
  - split; reflexivity.
Qed.

Lemma PUT_empty_body_reaches_store_witness :
  PUT "1" (mkUpdateBody None None) (Pg.mkStore [mkRow "1" "Write spec" false 10] 2)
  = PUT_write "1" (mkUpdate None None) (Pg.mkStore [mkRow "1" "Write spec" false 10] 2).
Proof.
  assert (H : "1" <> "") by discriminate.
  exact (proj1 (PUT_empty_body_reaches_store Pg.Store PgStore "1"
                  (Pg.mkStore [mkRow "1" "Write spec" false 10] 2) H)).
Defined.

(** An update addressed to an id no row has changes nothing and returns no row. *)
Lemma update_rows_absent (u : TodoUpdateData) (i : string) (l : list SupabaseTodo) :
  (forall r, In r l -> id r <> i) -> Pg.update_rows u i l = l.
Proof.
  unfold Pg.update_rows. induction l as [|x l IH]; simpl; intros H; [reflexivity|].
  assert (Hx : (id x =? i)%string = false) by (apply String.eqb_neq, H; now left).
  rewrite Hx, IH; [reflexivity|]. intros r Hr. apply H. now right.
Qed.

Lemma filter_id_absent (i : string) (l : list SupabaseTodo) :
  (forall r, In r l -> id r <> i) -> filter (fun r => (id r =? i)%string) l = [].
Proof.
  induction l as [|x l IH]; simpl; intros H; [reflexivity|].
  assert (Hx : (id x =? i)%string = false) by (apply String.eqb_neq, H; now left).
  rewrite Hx. apply IH. intros r Hr. apply H. now right.
Qed.

Lemma existsb_id_absent (i : string) (g : SupabaseTodo -> bool) (l : list SupabaseTodo) :
  (forall r, In r l -> id r <> i) ->
  existsb (fun r => (id r =? i)%string && g r) l = false.
Proof.
  induction l as [|x l IH]; simpl; intros H; [reflexivity|].
  assert (Hx : (id x =? i)%string = false) by (apply String.eqb_neq, H; now left).
  rewrite Hx. simpl. apply IH. intros r Hr. apply H. now right.
Qed.

Lemma violates_absent (i : string) (l : list SupabaseTodo) :
  (forall r, In r l -> id r <> i) -> Pg.violates i l = false.
Proof. intros H. unfold Pg.violates. now apply existsb_id_absent. Qed.

Lemma update_absent (u : TodoUpdateData) (i : string) (st : Pg.Store) :
  (forall r, In r (Pg.rows st) -> id r <> i) -> Pg.update u i st = (Data [], st).
Proof.
  intros H. unfold Pg.update. destruct st as [l n]. simpl in *.
  rewrite (update_rows_absent u i l H), (violates_absent i l H), (filter_id_absent i l H).
  destruct (upd_todo u), (upd_is_completed u); reflexivity.
Qed.




End UpdateBasics.

(* ================================================================== *)
(** ** Update: only the fields sent are written *)

Section UpdateFrame.

Lemma PUT_completed_only (i : string) (b : bool) (st : Pg.Store) :
  i <> "" ->
  PUT i (mkUpdateBody None (Some b)) st =
  let after := Pg.update_rows (mkUpdate None (Some b)) i (Pg.rows st) in
  match filter (fun r => (id r =? i)%string) after with
  | [] => (json_response (ErrorBody "Todo not found") 404,
           Pg.mkStore after (Pg.next_id st))
  | updatedTodo :: _ => (json_response (TodoBody (toApi updatedTodo)) 200,
                        Pg.mkStore after (Pg.next_id st))
  end.
Proof.
  intros Hid. unfold PUT. rewrite (eqb_nonempty i Hid).
  cbn [ub_todo ub_isCompleted]. unfold PUT_write. cbn [update_eq_select PgStore].
  unfold Pg.update. cbn [upd_todo upd_is_completed].
  destruct (filter _ _); reflexivity.
Qed.

(** The first row an update returns, when some row has the id. *)
Lemma filter_update_rows_head (u : TodoUpdateData) (i : string)
      (l : list SupabaseTodo) (row : SupabaseTodo) :
  In row l -> id row = i ->
  exists orig rest,
    In orig l /\ id orig = i
    /\ filter (fun r => (id r =? i)%string) (Pg.update_rows u i l)
       = Pg.apply_update u orig :: rest.
Proof.
  unfold Pg.update_rows. induction l as [|x l IH]; simpl; intros Hin Hrow; [contradiction|].
  destruct (id x =? i)%string eqn:E.
  - simpl. rewrite E. apply String.eqb_eq in E.
    exists x. eexists. split; [now left|]. split; [exact E | reflexivity].
  - destruct Hin as [-> | Hin]; [apply String.eqb_neq in E; contradiction|].
    rewrite E. destruct (IH Hin Hrow) as (orig & rest & Ho & Hi & Hf).
    exists orig, rest. split; [now right|]. now split.
Qed.

(** What the two one-field updates write, for an id that is a path segment. *)
Lemma PUT_partial_update_segment (i : string) (st : Pg.Store) (Hid : i <> "") :
  (forall b : bool,
      Pg.rows (snd (PUT i (mkUpdateBody None (Some b)) st))
      = map (fun r => if (id r =? i)%string
                      then mkRow (id r) (todo r) b (created_at r) else r) (Pg.rows st)
      /\ (forall row, In row (Pg.rows st) -> id row = i ->
            exists orig, In orig (Pg.rows st) /\ id orig = i
              /\ fst (PUT i (mkUpdateBody None (Some b)) st)
                 = json_response (TodoBody (Api.mk i (todo orig) b (created_at orig))) 200)
      /\ (forall l, GET st = json_response (ListBody l) 200 ->
            GET (snd (PUT i (mkUpdateBody None (Some b)) st))
            = json_response
                (ListBody (map (fun t => if (Api.id t =? i)%string
                                         then Api.mk (Api.id t) (Api.todo t) b (Api.createdAt t)
                                         else t) l)) 200))
  /\ (forall s : string,
        status (fst (PUT i (mkUpdateBody (Some (JString s)) None) st)) = 200 ->
        Pg.rows (snd (PUT i (mkUpdateBody (Some (JString s)) None) st))
        = map (fun r => if (id r =? i)%string
                        then mkRow (id r) (trim s) (is_completed r) (created_at r) else r)
              (Pg.rows st))
  /\ (forall v : json,
        map (fun r => (id r, is_completed r, created_at r))
            (Pg.rows (snd (PUT i (mkUpdateBody (Some v) None) st)))
        = map (fun r => (id r, is_completed r, created_at r)) (Pg.rows st)).
Proof.
  split; [|split].
  - intros b. rewrite (PUT_completed_only i b st Hid). cbv zeta.
    assert (Hrows : Pg.update_rows (mkUpdate None (Some b)) i (Pg.rows st)
                    = map (fun r => if (id r =? i)%string
                                    then mkRow (id r) (todo r) b (created_at r) else r)
                          (Pg.rows st)) by reflexivity.
    split; [|split].
    + destruct (filter _ _); exact Hrows.
    + intros row Hin Hrow.
      destruct (filter_update_rows_head (mkUpdate None (Some b)) i (Pg.rows st) row Hin Hrow)
        as (orig & rest & Ho & Hi & Hf).
      exists orig. split; [exact Ho|]. split; [exact Hi|].
      rewrite Hf. cbn [fst]. unfold toApi, Pg.apply_update. cbn. now rewrite Hi.
    + intros l Hl. unfold GET in *. cbn [select_order_created_at_desc PgStore] in *.
      unfold Pg.select_order in *. injection Hl as <-.
      assert (Hafter : forall resp,
                 Pg.rows (snd (match filter (fun r => (id r =? i)%string)
                                       (Pg.update_rows (mkUpdate None (Some b)) i (Pg.rows st)) with
                               | [] => (resp, Pg.mkStore (Pg.update_rows (mkUpdate None (Some b)) i (Pg.rows st)) (Pg.next_id st))
                               | u :: _ => (json_response (TodoBody (toApi u)) 200,
                                            Pg.mkStore (Pg.update_rows (mkUpdate None (Some b)) i (Pg.rows st)) (Pg.next_id st))
                               end))
                 = Pg.update_rows (mkUpdate None (Some b)) i (Pg.rows st)).
      { intros resp. destruct (filter _ _); reflexivity. }
      rewrite Hafter, Hrows.
      rewrite order_created_at_desc_map
        by (intros x; destruct (id x =? i)%string; reflexivity).
      rewrite !map_map. f_equal. f_equal. apply map_ext. intros x.
      unfold toApi. cbn [Api.id]. destruct (id x =? i)%string; reflexivity.
  - intros s. unfold PUT. rewrite (eqb_nonempty i Hid).
    cbn [ub_todo ub_isCompleted typeof str].
    destruct (trim s =? "")%string; [discriminate|].
    cbn [negb orb String.eqb Ascii.eqb Bool.eqb andb].
    destruct (select_todo_ilike_neq (trim s) i st) as [[|e l] | code];
      cbn [List.length Nat.ltb Nat.leb]; try discriminate.
    unfold PUT_write. cbn [update_eq_select PgStore]. unfold Pg.update.
    cbn [upd_todo upd_is_completed].
    destruct (Pg.violates i _); [discriminate|].
    destruct (filter _ _); [discriminate|]. intros _. reflexivity.
  - intros v. unfold PUT. rewrite (eqb_nonempty i Hid). cbn [ub_todo ub_isCompleted].
    destruct (negb (typeof (Some v) =? "string")%string
              || (trim (str (Some v)) =? "")%string); [reflexivity|].
    destruct (select_todo_ilike_neq _ i st) as [l | code]; [|reflexivity].
    destruct (0 <? List.length l)%nat; [reflexivity|].
    rewrite PUT_write_store. unfold Pg.update. cbn [upd_todo upd_is_completed].
    destruct (Pg.violates i _); [reflexivity|]. cbn [snd Pg.rows].
    unfold Pg.update_rows. rewrite map_map. apply map_ext. intros r.
    destruct (id r =? i)%string; reflexivity.
Qed.

Lemma PUT_empty_id (body : TodoUpdateBody) (st : Pg.Store) :
  PUT "" body st = (json_response (ErrorBody "Todo ID is required") 400, st).
Proof. reflexivity. Qed.

End UpdateFrame.

(* ================================================================== *)
(** ** Create: duplicates *)

Section CreateDuplicate.

Lemma count_key_absent (k : string) (l : list SupabaseTodo) :
  existsb (String.eqb k) (Pg.keys_of l) = false -> Pg.count_key k l = 0%nat.
Proof.
  unfold Pg.count_key, Pg.keys_of. induction l as [|x l IH]; simpl; [reflexivity|].
  rewrite orb_false_iff. intros [Hx Hl]. rewrite String.eqb_sym, Hx. now apply IH.
Qed.

Lemma key_present (e : SupabaseTodo) (l : list SupabaseTodo) :
  In e l -> existsb (String.eqb (Pg.index_key (todo e))) (Pg.keys_of l) = true.
Proof.
  intros H. apply existsb_exists. exists (Pg.index_key (todo e)).
  split; [|apply String.eqb_refl]. unfold Pg.keys_of.
  apply in_map_iff. now exists e.
Qed.

(** Under the unique index a key that is present is present once. *)
Lemma unique_count_key (e : SupabaseTodo) (l : list SupabaseTodo) :
  Pg.unique (Pg.keys_of l) = true -> In e l ->
  Pg.count_key (Pg.index_key (todo e)) l = 1%nat.
Proof.
  induction l as [|x l IH]; [contradiction|].
  cbn [Pg.keys_of map Pg.unique]. fold (Pg.keys_of l).
  rewrite andb_true_iff, negb_true_iff. intros [Hx Hu] [-> | Hin].
  - unfold Pg.count_key. cbn [filter]. rewrite String.eqb_refl. cbn [List.length].
    f_equal. now apply count_key_absent.
  - unfold Pg.count_key. cbn [filter].
    destruct (Pg.index_key (todo x) =? Pg.index_key (todo e))%string eqn:E.
    + apply String.eqb_eq in E. rewrite E, (key_present e l Hin) in Hx. discriminate.
    + now apply IH.
Qed.


Lemma store_wf_row (st : Pg.Store) (r : SupabaseTodo) :
  store_wf st -> In r (Pg.rows st) -> trim (todo r) = todo r /\ todo r <> "".
Proof.
  intros [H _] Hin. rewrite Forall_forall in H. exact (H r Hin).
Qed.

End CreateDuplicate.

(* ================================================================== *)
(** ** The invariant of the table *)

Section Invariant.

Lemma count_key_zero_absent (k : string) (l : list SupabaseTodo) :
  Pg.count_key k l = 0%nat -> existsb (String.eqb k) (Pg.keys_of l) = false.
Proof.
  unfold Pg.count_key, Pg.keys_of. induction l as [|x l IH]; simpl; [reflexivity|].
  rewrite (String.eqb_sym k). destruct (Pg.index_key (todo x) =? k)%string; simpl.
  - discriminate.
  - exact IH.
Qed.

Lemma count_key_cons (k : string) (x : SupabaseTodo) (l : list SupabaseTodo) :
  Pg.count_key k (x :: l)
  = ((if (Pg.index_key (todo x) =? k)%string then 1 else 0) + Pg.count_key k l)%nat.
Proof.
  unfold Pg.count_key. simpl. now destruct (Pg.index_key (todo x) =? k)%string.
Qed.

Lemma unique_of_counts (l : list SupabaseTodo) :
  (forall r, In r l -> (Pg.count_key (Pg.index_key (todo r)) l <= 1)%nat) ->
  Pg.unique (Pg.keys_of l) = true.
Proof.
  induction l as [|x l IH]; intros H; [reflexivity|].
  cbn [Pg.keys_of map Pg.unique]. fold (Pg.keys_of l).
  apply andb_true_iff. split.
  - apply negb_true_iff, count_key_zero_absent.
    specialize (H x (or_introl eq_refl)). rewrite count_key_cons, String.eqb_refl in H. lia.
  - apply IH. intros r Hr. specialize (H r (or_intror Hr)).
    rewrite count_key_cons in H. lia.
Qed.

Lemma count_key_ge_1 (k : string) (a : SupabaseTodo) (l : list SupabaseTodo) :
  In a l -> Pg.index_key (todo a) = k -> (1 <= Pg.count_key k l)%nat.
Proof.
  induction l as [|x l IH]; [contradiction|]. intros [-> | Hin] Hk; rewrite count_key_cons.
  - rewrite Hk, String.eqb_refl. lia.
  - specialize (IH Hin Hk). lia.
Qed.

Lemma count_key_ge_2 (k : string) (a b : SupabaseTodo) (l : list SupabaseTodo) :
  In a l -> In b l -> a <> b ->
  Pg.index_key (todo a) = k -> Pg.index_key (todo b) = k ->
  (2 <= Pg.count_key k l)%nat.
Proof.
  induction l as [|x l IH]; [contradiction|].
  intros [-> | Ha] [-> | Hb] Hab Hka Hkb; rewrite count_key_cons.
  - contradiction.
  - rewrite Hka, String.eqb_refl. pose proof (count_key_ge_1 k b l Hb Hkb). lia.
  - rewrite Hkb, String.eqb_refl. pose proof (count_key_ge_1 k a l Ha Hka). lia.
  - specialize (IH Ha Hb Hab Hka Hkb). lia.
Qed.

Lemma not_violates_target (i : string) (l : list SupabaseTodo) (r : SupabaseTodo) :
  Pg.violates i l = false -> In r l -> id r = i ->
  (Pg.count_key (Pg.index_key (todo r)) l <= 1)%nat.
Proof.
  unfold Pg.violates. intros H Hin Hid.
  destruct (1 <? Pg.count_key (Pg.index_key (todo r)) l)%nat eqn:E.
  - assert (existsb (fun r0 => (id r0 =? i)%string
                       && (1 <? Pg.count_key (Pg.index_key (todo r0)) l)%nat) l = true).
    { apply existsb_exists. exists r. split; [exact Hin|].
      rewrite E, andb_true_r. now apply String.eqb_eq. }
    congruence.
  - apply Nat.ltb_ge in E. exact E.
Qed.

Lemma update_rows_in (u : TodoUpdateData) (i : string) (l : list SupabaseTodo)
      (r' : SupabaseTodo) :
  In r' (Pg.update_rows u i l) ->
  (id r' = i /\ exists r, In r l /\ id r = i /\ r' = Pg.apply_update u r)
  \/ (id r' <> i /\ In r' l).
Proof.
  unfold Pg.update_rows. rewrite in_map_iff. intros (r & Hr & Hin).
  destruct (id r =? i)%string eqn:E.
  - left. apply String.eqb_eq in E. subst r'. split; [exact E|]. now exists r.
  - right. apply String.eqb_neq in E. subst r'. now split.
Qed.

Lemma update_rows_target (u : TodoUpdateData) (i : string) (l : list SupabaseTodo)
      (r : SupabaseTodo) :
  In r l -> id r = i -> In (Pg.apply_update u r) (Pg.update_rows u i l).
Proof.
  intros Hin Hid. unfold Pg.update_rows. apply in_map_iff. exists r.
  split; [|exact Hin]. apply String.eqb_eq in Hid. now rewrite Hid.
Qed.

Lemma update_rows_other (u : TodoUpdateData) (i : string) (l : list SupabaseTodo)
      (r : SupabaseTodo) :
  In r l -> id r <> i -> In r (Pg.update_rows u i l).
Proof.
  intros Hin Hid. unfold Pg.update_rows. apply in_map_iff. exists r.
  split; [|exact Hin]. apply String.eqb_neq in Hid. now rewrite Hid.
Qed.

Lemma count_key_update_le (u : TodoUpdateData) (i t k : string) (l : list SupabaseTodo) :
  upd_todo u = Some t -> k <> Pg.index_key t ->
  (Pg.count_key k (Pg.update_rows u i l) <= Pg.count_key k l)%nat.
Proof.
  intros Hu Hk. unfold Pg.update_rows. induction l as [|x l IH]; [apply Nat.le_refl|].
  cbn [map]. rewrite !count_key_cons. destruct (id x =? i)%string.
  - unfold Pg.apply_update at 1. rewrite Hu. cbn [todo].
    assert (E : (Pg.index_key t =? k)%string = false) by (apply String.eqb_neq; congruence).
    rewrite E. lia.
  - lia.
Qed.

Lemma id_present_dec (i : string) (l : list SupabaseTodo) :
  (forall r, In r l -> id r <> i) \/ (exists r, In r l /\ id r = i).
Proof.
  induction l as [|x l [IH | (r & Hr & Hi)]].
  - left. intros r [].
  - destruct (string_dec (id x) i) as [E | E].
    + right. exists x. split; [now left | exact E].
    + left. intros r [<- | Hr]; [exact E | now apply IH].
  - right. exists r. split; [now right | exact Hi].
Qed.

(** An update that the unique index lets through leaves the keys unique. *)
Lemma update_rows_unique (u : TodoUpdateData) (i t : string) (l : list SupabaseTodo) :
  Pg.unique (Pg.keys_of l) = true -> upd_todo u = Some t ->
  Pg.violates i (Pg.update_rows u i l) = false ->
  Pg.unique (Pg.keys_of (Pg.update_rows u i l)) = true.
Proof.
  intros Hu Ht Hv. apply unique_of_counts. intros r' Hin.
  destruct (update_rows_in u i l r' Hin) as [[Hid _] | [Hid Hl]].
  - now apply (not_violates_target i).
  - destruct (string_dec (Pg.index_key (todo r')) (Pg.index_key t)) as [E | E].
    + destruct (id_present_dec i l) as [Habs | (x & Hx & Hxi)].
      * rewrite (update_rows_absent u i l Habs).
        now rewrite (unique_count_key r' l Hu Hl).
      * exfalso.
        pose proof (update_rows_target u i l x Hx Hxi) as Hx'.
        assert (Hkx : Pg.index_key (todo (Pg.apply_update u x)) = Pg.index_key t)
          by (unfold Pg.apply_update; now rewrite Ht).
        assert (Hne : r' <> Pg.apply_update u x).
        { intros ->. apply Hid. cbn. exact Hxi. }
        pose proof (count_key_ge_2 (Pg.index_key t) r' (Pg.apply_update u x) _
                      Hin Hx' Hne E Hkx) as H2.
        pose proof (not_violates_target i _ (Pg.apply_update u x) Hv Hx'
                      ltac:(cbn; exact Hxi)) as H1.
        rewrite Hkx in H1. lia.
    + pose proof (count_key_update_le u i t _ l Ht E) as Hle.
      rewrite (unique_count_key r' l Hu Hl) in Hle. exact Hle.
Qed.

End Invariant.

Section InvariantPreserved.

Lemma store_wf_empty : store_wf Pg.empty.
Proof. split; [constructor | reflexivity]. Qed.

Lemma unique_snoc (k : string) (ks : list string) :
  Pg.unique ks = true -> existsb (String.eqb k) ks = false ->
  Pg.unique (ks ++ [k]) = true.
Proof.
  induction ks as [|x ks IH]; simpl; [reflexivity|].
  rewrite !andb_true_iff, negb_true_iff, orb_false_iff.
  intros [Hx Hu] [Hk Hks]. split.
  - apply negb_true_iff. rewrite existsb_app, Hx. simpl.
    now rewrite String.eqb_sym, Hk.
  - now apply IH.
Qed.

Lemma existsb_keys (k : string) (l : list SupabaseTodo) :
  existsb (String.eqb k) (Pg.keys_of l)
  = existsb (fun r => (Pg.index_key (todo r) =? k)%string) l.
Proof.
  unfold Pg.keys_of. induction l as [|x l IH]; simpl; [reflexivity|].
  now rewrite IH, String.eqb_sym.
Qed.

Lemma unique_filter (f : SupabaseTodo -> bool) (l : list SupabaseTodo) :
  Pg.unique (Pg.keys_of l) = true -> Pg.unique (Pg.keys_of (filter f l)) = true.
Proof.
  intros H. apply unique_of_counts. intros r Hr. apply filter_In in Hr as [Hr _].
  rewrite <- (unique_count_key r l H Hr). clear.
  induction l as [|x l IH]; [apply Nat.le_refl|].
  cbn [filter]. destruct (f x); rewrite !count_key_cons; lia.
Qed.

Lemma POST_preserves_wf (now : Z) (body : TodoCreateBody) (st : Pg.Store) :
  store_wf st -> store_wf (snd (POST now body st)).
Proof.
  intros Hwf. destruct body as [t c].
  assert (Hblank : text_missing_or_blank t -> store_wf (snd (POST now (mkCreateBody t c) st))).
  { intros B. now rewrite (POST_refuses_blank _ _ now (mkCreateBody t c) st B). }
  destruct t as [[| b | n | s | |]|]; try (apply Hblank; exact I).
  destruct (string_dec (trim s) "") as [E | E]; [apply Hblank; exact E|].
  rewrite (POST_valid_text now s c st E).
  destruct (existsb _ (Pg.rows st)) eqn:Hk; [exact Hwf|].
  destruct Hwf as [Hall Hu]. split; cbn [snd Pg.rows].
  - apply Forall_app. split; [exact Hall|]. constructor; [|constructor].
    cbn [todo]. split; [apply trim_idempotent | exact E].
  - unfold Pg.keys_of. rewrite map_app. cbn [map todo].
    apply unique_snoc; [exact Hu|]. fold (Pg.keys_of (Pg.rows st)).
    now rewrite existsb_keys.
Qed.

Lemma DELETE_preserves_wf (i : string) (st : Pg.Store) :
  store_wf st -> store_wf (snd (DELETE i st)).
Proof.
  intros Hwf. unfold DELETE. destruct (i =? "")%string; [exact Hwf|].
  cbn [delete_eq PgStore Pg.delete snd Pg.rows]. destruct Hwf as [Hall Hu]. split; cbn [Pg.rows].
  - rewrite Forall_forall in *. intros r Hr. apply filter_In in Hr as [Hr _]. now apply Hall.
  - now apply unique_filter.
Qed.

Lemma update_preserves_wf (u : TodoUpdateData) (i : string) (st : Pg.Store) :
  (forall t, upd_todo u = Some t -> trimmed t /\ t <> "") ->
  store_wf st -> store_wf (snd (Pg.update u i st)).
Proof.
  intros Ht [Hall Hu]. unfold Pg.update.
  assert (Hrows : Forall (fun r => trimmed (todo r) /\ todo r <> "")
                         (Pg.update_rows u i (Pg.rows st))).
  { rewrite Forall_forall in *. intros r' Hr'.
    destruct (update_rows_in u i _ r' Hr') as [[_ (r & Hr & _ & ->)] | [_ Hr]].
    - unfold Pg.apply_update. cbn [todo]. destruct (upd_todo u) as [t|]; [now apply Ht|].
      now apply Hall.
    - now apply Hall. }
  destruct (upd_todo u) as [t|] eqn:Et.
  - destruct (upd_is_completed u);
      (destruct (Pg.violates i _) eqn:Hv; [now split|];
       split; cbn [snd Pg.rows]; [exact Hrows|];
       now apply (update_rows_unique u i t)).
  - destruct (upd_is_completed u) as [b|]; [|now split].
    split; cbn [snd Pg.rows]; [exact Hrows|].
    replace (Pg.keys_of (Pg.update_rows u i (Pg.rows st))) with (Pg.keys_of (Pg.rows st));
      [exact Hu|].
    unfold Pg.keys_of, Pg.update_rows. rewrite map_map. apply map_ext. intros r.
    destruct (id r =? i)%string; [|reflexivity].
    unfold Pg.apply_update. now rewrite Et.
Qed.

Lemma PUT_preserves_wf (i : string) (body : TodoUpdateBody) (st : Pg.Store) :
  store_wf st -> store_wf (snd (PUT i body st)).
Proof.
  intros Hwf. unfold PUT. destruct (i =? "")%string; [exact Hwf|].
  destruct (ub_todo body) as [j|] eqn:Ej.
  - destruct (negb (typeof (Some j) =? "string")%string) eqn:Ty; [exact Hwf|].
    destruct (trim (str (Some j)) =? "")%string eqn:Es; [exact Hwf|]. cbn [orb].
    destruct (select_todo_ilike_neq _ i st) as [l | code]; [|exact Hwf].
    destruct (0 <? List.length l)%nat; [exact Hwf|].
    rewrite PUT_write_store. apply update_preserves_wf; [|exact Hwf].
    cbn [upd_todo]. intros t [= <-]. split; [apply trim_idempotent|].
    now apply String.eqb_neq.
  - rewrite PUT_write_store. apply update_preserves_wf; [|exact Hwf].
    cbn [upd_todo]. discriminate.
Qed.

(** X4. Every store built by the handlers from the empty table satisfies
    the invariant of the data model: every text is trimmed and not empty,
    and no two rows hold the same text up to letter case. *)
Lemma reachable_wf (st : Pg.Store) : reachable st -> store_wf st.
Proof.
  induction 1 as [| now body st _ IH | i body st _ IH | i st _ IH].
  - exact store_wf_empty.
  - now apply POST_preserves_wf.
  - now apply PUT_preserves_wf.
  - now apply DELETE_preserves_wf.
Qed.

End InvariantPreserved.

(* ================================================================== *)
(** ** The pattern matching of the duplicate check *)

Section Like.

Lemma string_escape_ind (P : string -> Prop) :
  P "" ->
  P (String "\"%char "") ->
  (forall e p, P p -> P (String "\"%char (String e p))) ->
  (forall c p, Ascii.eqb c "\"%char = false -> P p -> P (String c p)) ->
  forall p, P p.
Proof.
  intros H0 H1 H2 H3 p.
  assert (H : forall n q, (String.length q <= n)%nat -> P q).
  { induction n as [|n IH]; intros q Hq.
    - destruct q; [exact H0 | simpl in Hq; lia].
    - destruct q as [|c q]; [exact H0|]. simpl in Hq.
      destruct (Ascii.eqb c "\"%char) eqn:E.
      + apply Ascii.eqb_eq in E. subst c.
        destruct q as [|e q]; [exact H1|]. apply H2, IH. simpl in Hq. lia.
      + apply H3; [exact E|]. apply IH. lia. }
  exact (H (String.length p) p (Nat.le_refl _)).
Qed.

Lemma like_percent (q s : string) :
  Pg.like (String "%"%char q) s
  = match Pg.like q s with
    | Pg.LikeFalse =>
        match s with
        | EmptyString => Pg.LikeFalse
        | String _ s' => Pg.like (String "%"%char q) s'
        end
    | r => r
    end.
Proof. destruct s; reflexivity. Qed.

Lemma like_literal (c : ascii) (q s : string) :
  Ascii.eqb c "\"%char = false -> Ascii.eqb c "%"%char = false ->
  Ascii.eqb c "_"%char = false ->
  Pg.like (String c q) s
  = match s with
    | EmptyString => Pg.LikeFalse
    | String x s' => if Pg.same_char_ci x c then Pg.like q s' else Pg.LikeFalse
    end.
Proof. intros E1 E2 E3. cbn [Pg.like]. now rewrite E1, E2, E3. Qed.


(** A pattern without a dangling backslash never raises the error. *)
Lemma like_no_error (p : string) :
  escapes_closed p = true -> forall s, Pg.like p s <> Pg.LikeError.
Proof.
  induction p as [| | e p IH | c p Ec IH] using string_escape_ind; intros Hp s.
  - destruct s; discriminate.
  - discriminate Hp.
  - destruct s as [|x s]; cbn; [discriminate|].
    destruct (Pg.same_char_ci x e); [now apply IH | discriminate].
  - cbn [escapes_closed] in Hp. rewrite Ec in Hp. specialize (IH Hp).
    destruct (Ascii.eqb c "%"%char) eqn:E2.
    + apply Ascii.eqb_eq in E2. subst c.
      induction s as [|x s IHs]; rewrite like_percent.
      * specialize (IH ""). destruct (Pg.like p ""); congruence.
      * specialize (IH (String x s)). destruct (Pg.like p (String x s)); congruence.
    + destruct (Ascii.eqb c "_"%char) eqn:E3.
      * apply Ascii.eqb_eq in E3. subst c. destruct s as [|x s]; cbn; [discriminate | apply IH].
      * rewrite (like_literal c p s Ec E2 E3). destruct s as [|x s]; [discriminate|].
        destruct (Pg.same_char_ci x c); [apply IH | discriminate].
Qed.




Lemma star_backslash (c : ascii) :
  Ascii.eqb (if Ascii.eqb c "*"%char then "%"%char else c) "\"%char = Ascii.eqb c "\"%char.
Proof.
  destruct (Ascii.eqb c "*"%char) eqn:E; [|reflexivity].
  apply Ascii.eqb_eq in E. now subst c.
Qed.

Lemma star_escapes_closed (p : string) :
  escapes_closed (Pg.star p) = escapes_closed p.
Proof.
  induction p as [| | e p IH | c p Ec IH] using string_escape_ind.
  - reflexivity.
  - reflexivity.
  - cbn [Pg.star]. cbn. exact IH.
  - cbn [Pg.star escapes_closed]. now rewrite star_backslash, Ec.
Qed.

End Like.

Section LikeVersusEquality.



Lemma no_backslash_closed (p : string) :
  has_char "\"%char p = false -> escapes_closed p = true.
Proof.
  induction p as [|c p IH]; [reflexivity|]. cbn [has_char escapes_closed].
  rewrite orb_false_iff. intros [Ec Hp]. rewrite Ec. now apply IH.
Qed.

Lemma star_no_backslash (p : string) :
  has_char "\"%char (Pg.star p) = has_char "\"%char p.
Proof.
  induction p as [|c p IH]; [reflexivity|]. cbn [Pg.star has_char].
  now rewrite star_backslash, IH.
Qed.

(** Without a backslash in it, a text used as a pattern matches every text
    equal to it up to letter case. *)
Lemma ilike_ci_equal (p : string) :
  has_char "\"%char p = false ->
  forall s, ci_eq s p -> Pg.ilike p s = Pg.LikeTrue.
Proof.
  unfold Pg.ilike, ci_eq. induction p as [|c p IH]; intros Hp s Heq.
  - cbn in Heq. apply toLowerCase_empty in Heq. now subst s.
  - cbn [has_char] in Hp. apply orb_false_iff in Hp as [Ec Hp].
    destruct s as [|x s]; [discriminate Heq|]. cbn [toLowerCase] in Heq.
    injection Heq as Hx Hs. specialize (IH Hp s Hs).
    assert (Hne : forall s0, Pg.like (Pg.star p) s0 <> Pg.LikeError).
    { apply like_no_error, no_backslash_closed. now rewrite star_no_backslash. }
    assert (Hpercent : Pg.like (String "%"%char (Pg.star p)) (String x s) = Pg.LikeTrue).
    { rewrite like_percent. specialize (Hne (String x s)).
      destruct (Pg.like (Pg.star p) (String x s)); [reflexivity | | congruence].
      rewrite like_percent. now rewrite IH. }
    cbn [Pg.star].
    destruct (Ascii.eqb c "*"%char) eqn:E0; [exact Hpercent|].
    destruct (Ascii.eqb c "%"%char) eqn:E2.
    { apply Ascii.eqb_eq in E2. subst c. exact Hpercent. }
    destruct (Ascii.eqb c "_"%char) eqn:E3.
    { apply Ascii.eqb_eq in E3. subst c. exact IH. }
    rewrite (like_literal c _ _ Ec E2 E3). unfold Pg.same_char_ci.
    rewrite Hx, Ascii.eqb_refl. exact IH.
Qed.


Lemma existsb_false (A : Type) (f : A -> bool) (l : list A) :
  (forall x, In x l -> f x = false) -> existsb f l = false.
Proof.
  induction l as [|x l IH]; simpl; intros H; [reflexivity|].
  rewrite (H x (or_introl eq_refl)). apply IH. intros y Hy. apply H. now right.
Qed.

(** The duplicate query returns the text of a row of another id that the
    pattern matches, when the pattern raises no error. *)
Lemma select_ilike_neq_finds (pattern i : string) (st : Pg.Store) (other : SupabaseTodo) :
  (forall r, In r (Pg.rows st) -> Pg.ilike pattern (todo r) <> Pg.LikeError) ->
  In other (Pg.rows st) -> id other <> i ->
  Pg.ilike pattern (todo other) = Pg.LikeTrue ->
  exists l, select_todo_ilike_neq pattern i st = Data l /\ In (todo other) l.
Proof.
  intros Hne Hin Hoth Hm. cbn [select_todo_ilike_neq PgStore]. unfold Pg.select_ilike_neq.
  rewrite existsb_false.
  - eexists. split; [reflexivity|]. apply in_map, filter_In. split; [exact Hin|].
    rewrite Hm. cbn. now apply negb_true_iff, String.eqb_neq.
  - intros r Hr. specialize (Hne r Hr). now destruct (Pg.ilike pattern (todo r)).
Qed.

(** The duplicate check answers 409 as soon as the pattern raises no error
    and matches the text of a row of another id. *)
Lemma PUT_pattern_match_conflict (i s : string) (c : option bool) (st : Pg.Store)
      (other : SupabaseTodo) :
  i <> "" -> trim s <> "" ->
  (forall r, In r (Pg.rows st) -> Pg.ilike (trim s) (todo r) <> Pg.LikeError) ->
  In other (Pg.rows st) -> id other <> i ->
  Pg.ilike (trim s) (todo other) = Pg.LikeTrue ->
  PUT i (mkUpdateBody (Some (JString s)) c) st
  = (json_response (ErrorBody "Duplicate todo item") 409, st).
Proof.
  intros Hid Hs Hne Hin Hoth Hm.
  destruct (select_ilike_neq_finds (trim s) i st other Hne Hin Hoth Hm) as (l & Hq & Hl).
  unfold PUT. rewrite (eqb_nonempty i Hid).
  cbn [ub_todo ub_isCompleted typeof str]. apply String.eqb_neq in Hs. rewrite Hs.
  cbn [negb orb String.eqb Ascii.eqb Bool.eqb andb]. rewrite Hq.
  destruct l; [contradiction | reflexivity].
Qed.

(** A new text without a backslash, equal up to letter case to the text of
    a row of another id, is answered with 409 and nothing is written. *)
Lemma PUT_duplicate_conflict_no_backslash (i s : string) (c : option bool)
      (st : Pg.Store) (other : SupabaseTodo) :
  i <> "" -> trim s <> "" -> has_char "\"%char (trim s) = false ->
  In other (Pg.rows st) -> id other <> i -> ci_eq (todo other) (trim s) ->
  PUT i (mkUpdateBody (Some (JString s)) c) st
  = (json_response (ErrorBody "Duplicate todo item") 409, st).
Proof.
  intros Hid Hs Hb Hin Hoth Heq.
  apply (PUT_pattern_match_conflict i s c st other Hid Hs); try assumption.
  - intros r _. unfold Pg.ilike. apply like_no_error.
    rewrite star_escapes_closed. now apply no_backslash_closed.
  - now apply ilike_ci_equal.
Qed.

End LikeVersusEquality.

(* ================================================================== *)
(** ** Update: the duplicate check *)

Section UpdateDuplicate.

(** C2, where the code departs from it. Two creates build a table whose
    row 1 holds the text [a\b] and whose row 2 holds [x]. Updating row 2 to
    the text of row 1 is not answered with 409: as a pattern, [a\b] reads
    the backslash as an escape and matches only [ab], so the duplicate query
    returns no row, the write is issued, the unique index refuses it and the
    handler answers 500. The table is left as it was. *)
Theorem PUT_duplicate_with_backslash_500 :
  let st := snd (POST 11 (mkCreateBody (Some (JString "x")) None)
                  (snd (POST 10 (mkCreateBody (Some (JString "a\b")) None) Pg.empty))) in
  reachable st
  /\ Pg.rows st = [mkRow "1" "a\b" false 10; mkRow "2" "x" false 11]
  /\ (exists other, In other (Pg.rows st) /\ id other <> "2"
                    /\ ci_eq (todo other) (trim "a\b"))
  /\ select_todo_ilike_neq (trim "a\b") "2" st = Data []
  /\ PUT "2" (mkUpdateBody (Some (JString "a\b")) None) st
     = (json_response (ErrorBody "Failed to update todo") 500, st).
Proof.
  intros st. split; [|split; [|split; [|split]]].
  - unfold st. apply reach_POST, reach_POST, reach_empty.
  - reflexivity.
  - exists (mkRow "1" "a\b" false 10). split; [now left|]. split; [discriminate | reflexivity].
  - reflexivity.
  - reflexivity.
Qed.







End UpdateDuplicate.

(* ================================================================== *)
(** ** The handlers over any gateway *)

Section HandlersAnyGateway.

Context {DB : Type} {G : Gateway DB}.

(** X1. For every gateway and every non-empty id, an update whose [todo]
    key is present but holds something else than a string ([null]
    included), or a string that is empty once trimmed, is answered with 400
    "Todo text cannot be empty" and the store is handed back untouched: no
    query is issued. *)
Theorem PUT_refuses_bad_text (i : string) (body : TodoUpdateBody) (db : DB) :
  i <> "" ->
  match ub_todo body with
  | None => False
  | Some (JString s) => trim s = ""
  | Some _ => True
  end ->
  PUT i body db = (json_response (ErrorBody "Todo text cannot be empty") 400, db).
Proof.
  intros Hid H. unfold PUT. rewrite (eqb_nonempty i Hid).
  destruct (ub_todo body) as [[| b | n | s | |]|]; try reflexivity; try contradiction.
  cbn [typeof str]. rewrite H. reflexivity.
Qed.

(** X2. For every gateway, whatever the request and whatever the store
    answers: the list handler answers 200 or 500, create answers 201, 400,
    409 or 500, update answers 200, 400, 404, 409 or 500, delete answers
    200, 400 or 500; and in every answer the body is an [{error}] object
    exactly when the status is outside 200-299. *)
Theorem handlers_status_and_body (db : DB) :
  (In (status (GET db)) [200; 500]
   /\ (ok (GET db) = true <-> data_error (body (GET db)) = None))
  /\ (forall now req,
        In (status (fst (POST now req db))) [201; 400; 409; 500]
        /\ (ok (fst (POST now req db)) = true
            <-> data_error (body (fst (POST now req db))) = None))
  /\ (forall i req,
        In (status (fst (PUT i req db))) [200; 400; 404; 409; 500]
        /\ (ok (fst (PUT i req db)) = true
            <-> data_error (body (fst (PUT i req db))) = None))
  /\ (forall i,
        In (status (fst (DELETE i db))) [200; 400; 500]
        /\ (ok (fst (DELETE i db)) = true
            <-> data_error (body (fst (DELETE i db))) = None)).
Proof.
  assert (Hw : forall i u, In (status (fst (PUT_write i u db))) [200; 400; 404; 409; 500]
                           /\ (ok (fst (PUT_write i u db)) = true
                               <-> data_error (body (fst (PUT_write i u db))) = None)).
  { intros i u. unfold PUT_write.
    destruct (update_eq_select u i db) as [[[|x l] | code] db']; cbn;
      (split; [tauto | split; congruence]). }
  split; [|split; [|split]].
  - unfold GET. destruct (select_order_created_at_desc db); cbn;
      (split; [tauto | split; congruence]).
  - intros now req. unfold POST.
    destruct (negb (truthy (cb_todo req)) || _ || _);
      [cbn; split; [tauto | split; congruence]|].
    destruct (insert_select _ _ db) as [[[|x l] | code] db'];
      try (cbn; split; [tauto | split; congruence]).
    destruct (code =? "23505")%string; cbn; (split; [tauto | split; congruence]).
  - intros i req. unfold PUT.
    destruct (i =? "")%string; [cbn; split; [tauto | split; congruence]|].
    destruct (ub_todo req) as [j|]; [|apply Hw].
    destruct (negb (typeof (Some j) =? "string")%string || _);
      [cbn; split; [tauto | split; congruence]|].
    destruct (select_todo_ilike_neq _ i db) as [l | code];
      [|cbn; split; [tauto | split; congruence]].
    destruct (0 <? List.length l)%nat; [cbn; split; [tauto | split; congruence] | apply Hw].
  - intros i. unfold DELETE.
    destruct (i =? "")%string; [cbn; split; [tauto | split; congruence]|].
    destruct (delete_eq i db) as [[u | code] db']; cbn; (split; [tauto | split; congruence]).
Qed.


End HandlersAnyGateway.

Lemma PUT_refuses_bad_text_witness :
  PUT "1" (mkUpdateBody (Some JNull) (Some true)) (Pg.mkStore [mkRow "1" "Write spec" false 10] 2)
  = (json_response (ErrorBody "Todo text cannot be empty") 400,
     Pg.mkStore [mkRow "1" "Write spec" false 10] 2).
Proof.
  apply (PUT_refuses_bad_text (G := PgStore) "1" (mkUpdateBody (Some JNull) (Some true))).
  - discriminate.
  - exact I.
Defined.


Lemma reachable_wf_witness :
  store_wf (snd (POST 10 (mkCreateBody (Some (JString " Write spec ")) None) Pg.empty)).
Proof.
  apply reachable_wf. apply reach_POST, reach_empty.
Defined.

(* ================================================================== *)
(** ** How the handlers compose on the hosted table *)

Section Composition.

Lemma GET_rows (st : Pg.Store) :
  GET st = json_response (ListBody (map toApi (Pg.order_created_at_desc (Pg.rows st)))) 200.
Proof. reflexivity. Qed.


Lemma ci_eq_nonempty (a b : string) : ci_eq a b -> b <> "" -> a <> "".
Proof.
  unfold ci_eq. intros H Hb ->. simpl in H. symmetry in H.
  apply toLowerCase_empty in H. contradiction.
Qed.




End Composition.

Section DeleteComposition.







Lemma DELETE_rows (i : string) (st : Pg.Store) :
  i <> "" ->
  DELETE i st
  = (json_response SuccessBody 200,
     Pg.mkStore (filter (fun r => negb (id r =? i)%string) (Pg.rows st)) (Pg.next_id st)).
Proof. intros Hid. unfold DELETE. now rewrite (eqb_nonempty i Hid). Qed.



(** X8. Deleting a todo frees its text. In a store that satisfies the
    invariant, after the delete of the (non-empty) id of a row, a create
    whose trimmed text equals that row's text up to letter case is answered
    201. *)
Theorem DELETE_frees_text (now : Z) (s : string) (c : option bool) (i : string)
        (st : Pg.Store) (r : SupabaseTodo) :
  store_wf st -> In r (Pg.rows st) -> id r = i -> i <> "" ->
  ci_eq (trim s) (todo r) ->
  status (fst (POST now (mkCreateBody (Some (JString s)) c) (snd (DELETE i st)))) = 201.
Proof.
  intros Hwf Hin Hri Hid Heq.
  destruct (store_wf_row st r Hwf Hin) as [_ Hne].
  rewrite (DELETE_rows i st Hid). cbn [snd].
  rewrite (POST_valid_text now s c _ (ci_eq_nonempty _ _ Heq Hne)). cbn [Pg.rows].
  rewrite existsb_false; [reflexivity|].
  intros x Hx. apply filter_In in Hx as [Hx Hxi].
  apply negb_true_iff, String.eqb_neq in Hxi. apply String.eqb_neq. intros Hk.
  assert (Hxr : x <> r) by (intros ->; contradiction).
  assert (Hkr : Pg.index_key (todo r) = Pg.index_key (trim s))
    by (unfold Pg.index_key; now symmetry).
  pose proof (count_key_ge_2 _ x r (Pg.rows st) Hx Hin Hxr Hk Hkr) as H2.
  rewrite <- Hkr, (unique_count_key r _ (proj2 Hwf) Hin) in H2. lia.
Qed.

Lemma DELETE_frees_text_witness :
  status (fst (POST 12 (mkCreateBody (Some (JString " write SPEC")) None)
                 (snd (DELETE "1" (Pg.mkStore [mkRow "1" "Write spec" false 10] 2))))) = 201.
Proof.
  refine (DELETE_frees_text 12 " write SPEC" None "1"
            (Pg.mkStore [mkRow "1" "Write spec" false 10] 2)
            (mkRow "1" "Write spec" false 10) _ _ _ _ _).
  - split; [|reflexivity]. constructor; [|constructor]. split; [reflexivity | discriminate].
  - now left.
  - reflexivity.
  - discriminate.
  - reflexivity.
Defined.

End DeleteComposition.

(* ================================================================== *)
(** ** Update on the hosted table: plain texts, own text, toggling twice *)

Section UpdateMore.

Lemma plain_text_chars (s : string) :
  plain_text s = true ->
  has_char "\"%char s = false /\ has_char "%"%char s = false
  /\ has_char "_"%char s = false /\ has_char "*"%char s = false.
Proof.
  unfold plain_text. rewrite !andb_true_iff, !negb_true_iff. tauto.
Qed.

Lemma star_without_star (p : string) : has_char "*"%char p = false -> Pg.star p = p.
Proof.
  induction p as [|c p IH]; [reflexivity|]. cbn [has_char Pg.star].
  rewrite orb_false_iff. intros [Ec Hp]. now rewrite Ec, IH.
Qed.

(** Without pattern characters a match is an equality up to letter case. *)
Lemma like_plain_sound (p : string) :
  has_char "\"%char p = false -> has_char "%"%char p = false ->
  has_char "_"%char p = false ->
  forall s, Pg.like p s = Pg.LikeTrue -> ci_eq s p.
Proof.
  unfold ci_eq. induction p as [|c p IH]; intros H1 H2 H3 s Hm.
  - destruct s; [reflexivity | discriminate Hm].
  - cbn [has_char] in H1, H2, H3.
    apply orb_false_iff in H1 as [E1 H1]. apply orb_false_iff in H2 as [E2 H2].
    apply orb_false_iff in H3 as [E3 H3].
    rewrite (like_literal c p s E1 E2 E3) in Hm.
    destruct s as [|x s]; [discriminate Hm|].
    destruct (Pg.same_char_ci x c) eqn:Ex; [|discriminate Hm].
    cbn [toLowerCase]. apply Ascii.eqb_eq in Ex. rewrite Ex. f_equal. now apply IH.
Qed.

Lemma ilike_plain_iff (p s : string) :
  plain_text p = true -> (Pg.ilike p s = Pg.LikeTrue <-> ci_eq s p).
Proof.
  intros Hp. destruct (plain_text_chars p Hp) as (H1 & H2 & H3 & H4). split.
  - unfold Pg.ilike. rewrite (star_without_star p H4). now apply like_plain_sound.
  - now apply ilike_ci_equal.
Qed.

Lemma ilike_plain_no_error (p s : string) :
  plain_text p = true -> Pg.ilike p s <> Pg.LikeError.
Proof.
  intros Hp. destruct (plain_text_chars p Hp) as (H1 & _). unfold Pg.ilike.
  apply like_no_error. rewrite star_escapes_closed. now apply no_backslash_closed.
Qed.

(** What a 409 answer of [PUT] tells. *)
Lemma PUT_conflict_inv (i : string) (body : TodoUpdateBody) (st : Pg.Store) :
  status (fst (PUT i body st)) = 409 ->
  exists s other,
    ub_todo body = Some (JString s)
    /\ In other (Pg.rows st) /\ id other <> i
    /\ Pg.ilike (trim s) (todo other) = Pg.LikeTrue.
Proof.
  assert (Hw : forall u, status (fst (PUT_write i u st)) = 409 -> False).
  { intros u H. destruct (PUT_write_status Pg.Store PgStore i u st) as [E | [E | E]];
      rewrite E in H; discriminate H. }
  unfold PUT. destruct (i =? "")%string; [discriminate|].
  destruct (ub_todo body) as [j|]; [|intros H; now apply Hw in H].
  destruct (negb (typeof (Some j) =? "string")%string) eqn:Ty; [discriminate|].
  destruct j as [| b | n | s | |]; try discriminate Ty. cbn [str].
  destruct (trim s =? "")%string; [discriminate|]. cbn [orb].
  cbn [select_todo_ilike_neq PgStore]. unfold Pg.select_ilike_neq.
  destruct (existsb _ (Pg.rows st)); [discriminate|].
  destruct (map todo _) as [|t l] eqn:El; [intros H; now apply Hw in H|]. intros _.
  assert (Ht : In t (map todo (filter (fun r => Pg.is_true (Pg.ilike (trim s) (todo r))
                                                && negb (id r =? i)%string) (Pg.rows st))))
    by (rewrite El; now left).
  apply in_map_iff in Ht as (other & _ & Ho). apply filter_In in Ho as [Hin Hf].
  apply andb_true_iff in Hf as [Hm Hi]. exists s, other.
  split; [reflexivity|]. split; [exact Hin|]. split.
  - now apply negb_true_iff, String.eqb_neq in Hi.
  - now destruct (Pg.ilike (trim s) (todo other)).
Qed.

Lemma PUT_completed_store (i : string) (b : bool) (st : Pg.Store) :
  i <> "" ->
  snd (PUT i (mkUpdateBody None (Some b)) st)
  = Pg.mkStore (Pg.update_rows (mkUpdate None (Some b)) i (Pg.rows st)) (Pg.next_id st).
Proof.
  intros Hid. rewrite (PUT_completed_only i b st Hid). cbv zeta.
  destruct (filter _ _); reflexivity.
Qed.

(** X10. Toggling twice restores the table: for a non-empty id whose rows
    all carry the flag [c], the update to [negb c] followed by the update to
    [c] leaves the store exactly as it was. *)
Theorem PUT_toggle_twice (i : string) (c : bool) (st : Pg.Store) :
  i <> "" ->
  (forall r, In r (Pg.rows st) -> id r = i -> is_completed r = c) ->
  snd (PUT i (mkUpdateBody None (Some c))
           (snd (PUT i (mkUpdateBody None (Some (negb c))) st))) = st.
Proof.
  intros Hid Hc. rewrite !(PUT_completed_store i _ _ Hid). cbn [Pg.rows Pg.next_id].
  destruct st as [l n]. cbn [Pg.rows Pg.next_id] in *. f_equal.
  unfold Pg.update_rows. rewrite map_map.
  rewrite <- (map_id l) at 2. apply map_ext_in. intros r Hr.
  destruct (id r =? i)%string eqn:E; cbn beta iota.
  - unfold Pg.apply_update. cbn [id todo is_completed created_at upd_todo upd_is_completed].
    rewrite E. apply String.eqb_eq in E. rewrite <- (Hc r Hr E). now destruct r.
  - now rewrite E.
Qed.

Lemma PUT_toggle_twice_witness :
  let st := Pg.mkStore [mkRow "1" "Write spec" false 10; mkRow "2" "Buy milk" true 11] 3 in
  snd (PUT "1" (mkUpdateBody None (Some false))
           (snd (PUT "1" (mkUpdateBody None (Some (negb false))) st))) = st.
Proof.
  intros st. apply (PUT_toggle_twice "1" false st).
  - discriminate.
  - intros r [<- | [<- | []]]; [reflexivity | discriminate].
Defined.

End UpdateMore.

Section UpdateOwnText.

Lemma filter_none_in (A : Type) (f : A -> bool) (l : list A) :
  (forall x, In x l -> f x = false) -> filter f l = [].
Proof.
  induction l as [|x l IH]; simpl; intros H; [reflexivity|].
  rewrite (H x (or_introl eq_refl)). apply IH. intros y Hy. apply H. now right.
Qed.

Lemma count_key_of_keys (k : string) (l : list SupabaseTodo) :
  Pg.count_key k l = List.length (filter (fun k' => (k' =? k)%string) (Pg.keys_of l)).
Proof.
  unfold Pg.count_key, Pg.keys_of. induction l as [|x l IH]; [reflexivity|].
  cbn [map filter]. destruct (Pg.index_key (todo x) =? k)%string; cbn [List.length];
    now rewrite IH.
Qed.

(** Two rows of a table with unique keys that share a key are one row. *)
Lemma unique_key_same_row (l : list SupabaseTodo) (x r : SupabaseTodo) :
  Pg.unique (Pg.keys_of l) = true -> In x l -> In r l ->
  Pg.index_key (todo x) = Pg.index_key (todo r) -> x = r.
Proof.
  intros Hu Hx Hr Hk.
  assert (Hdec : forall a b : SupabaseTodo, {a = b} + {a <> b}).
  { decide equality; [apply Z.eq_dec | apply bool_dec | apply string_dec | apply string_dec]. }
  destruct (Hdec x r) as [E | E]; [exact E | exfalso].
  pose proof (count_key_ge_2 _ x r l Hx Hr E Hk eq_refl) as H2.
  rewrite (unique_count_key r l Hu Hr) in H2. lia.
Qed.

(** X11. Changing only the letter case of a todo's own text is not a
    conflict. In a store that satisfies the invariant, for the row of a
    non-empty id that no other row carries, an update whose trimmed text has
    no pattern characters and equals the row's text up to letter case is
    answered 200 with the row carrying the new text, and the table is
    rewritten accordingly. *)
Theorem PUT_recase_own_text (i s : string) (c : option bool) (st : Pg.Store)
        (r : SupabaseTodo) :
  store_wf st -> i <> "" -> In r (Pg.rows st) -> id r = i ->
  (forall x, In x (Pg.rows st) -> id x = i -> x = r) ->
  plain_text (trim s) = true -> ci_eq (trim s) (todo r) ->
  PUT i (mkUpdateBody (Some (JString s)) c) st
  = (json_response
       (TodoBody (Api.mk i (trim s)
                         (match c with Some b => b | None => is_completed r end)
                         (created_at r))) 200,
     Pg.mkStore (Pg.update_rows (mkUpdate (Some (trim s)) c) i (Pg.rows st))
                (Pg.next_id st)).
Proof.
  intros Hwf Hid Hin Hri Honly Hp Heq.
  destruct (store_wf_row st r Hwf Hin) as [_ Hne].
  pose proof (ci_eq_nonempty _ _ Heq Hne) as Hs.
  assert (Hkey : Pg.index_key (trim s) = Pg.index_key (todo r)) by exact Heq.
  (* the duplicate query finds nothing *)
  assert (Hq : select_todo_ilike_neq (trim s) i st = Data []).
  { cbn [select_todo_ilike_neq PgStore]. unfold Pg.select_ilike_neq.
    rewrite existsb_false.
    - rewrite filter_none_in; [reflexivity|]. intros x Hx.
      destruct (id x =? i)%string eqn:Ex; [now rewrite andb_false_r|].
      rewrite andb_true_r. apply String.eqb_neq in Ex.
      destruct (Pg.ilike (trim s) (todo x)) eqn:Em; try reflexivity. exfalso.
      apply (ilike_plain_iff _ _ Hp) in Em.
      apply Ex. rewrite <- Hri. f_equal.
      apply (unique_key_same_row (Pg.rows st)); try assumption; [exact (proj2 Hwf)|].
      unfold Pg.index_key. unfold ci_eq in Em, Heq. congruence.
    - intros x _. pose proof (ilike_plain_no_error (trim s) (todo x) Hp).
      now destruct (Pg.ilike (trim s) (todo x)). }
  (* the keys of the table do not change *)
  set (u := mkUpdate (Some (trim s)) c).
  assert (Hkeys : Pg.keys_of (Pg.update_rows u i (Pg.rows st)) = Pg.keys_of (Pg.rows st)).
  { unfold Pg.keys_of, Pg.update_rows. rewrite map_map. apply map_ext_in. intros x Hx.
    destruct (id x =? i)%string eqn:Ex; [|reflexivity].
    apply String.eqb_eq in Ex. rewrite (Honly x Hx Ex). exact Hkey. }
  assert (Hv : Pg.violates i (Pg.update_rows u i (Pg.rows st)) = false).
  { unfold Pg.violates. apply existsb_false. intros x Hx.
    apply andb_false_iff. right. apply Nat.ltb_ge.
    rewrite count_key_of_keys, Hkeys, <- count_key_of_keys.
    assert (Hk : In (Pg.index_key (todo x)) (Pg.keys_of (Pg.rows st))).
    { rewrite <- Hkeys. unfold Pg.keys_of.
      now apply (in_map (fun r0 => Pg.index_key (todo r0))). }
    unfold Pg.keys_of in Hk. apply in_map_iff in Hk as (y & Hy & Hyin).
    rewrite <- Hy, (unique_count_key y _ (proj2 Hwf) Hyin). apply Nat.le_refl. }
  destruct (filter_update_rows_head u i (Pg.rows st) r Hin Hri)
    as (orig & rest & Ho & Hoi & Hf).
  rewrite (Honly orig Ho Hoi) in Hf.
  unfold PUT. rewrite (eqb_nonempty i Hid). cbn [ub_todo ub_isCompleted typeof str].
  apply String.eqb_neq in Hs. rewrite Hs.
  cbn [negb orb String.eqb Ascii.eqb Bool.eqb andb]. rewrite Hq.
  cbn [List.length Nat.ltb Nat.leb]. unfold PUT_write. cbn [update_eq_select PgStore].
  unfold Pg.update. fold u. cbn [upd_todo upd_is_completed u].
  destruct c as [b|]; fold u; rewrite Hv, Hf;
    unfold toApi, Pg.apply_update; cbn; now rewrite Hri.
Qed.

Lemma PUT_recase_own_text_witness :
  let st := Pg.mkStore [mkRow "1" "Write spec" false 10; mkRow "2" "Buy milk" false 11] 3 in
  PUT "1" (mkUpdateBody (Some (JString " WRITE SPEC ")) None) st
  = (json_response (TodoBody (Api.mk "1" "WRITE SPEC" false 10)) 200,
     Pg.mkStore [mkRow "1" "WRITE SPEC" false 10; mkRow "2" "Buy milk" false 11] 3).
Proof.
  intros st.
  refine (PUT_recase_own_text "1" " WRITE SPEC " None st (mkRow "1" "Write spec" false 10)
            _ _ _ _ _ _ _).
  - split; [|reflexivity].
    repeat constructor; try reflexivity; discriminate.
  - discriminate.
  - now left.
  - reflexivity.
  - intros x [<- | [<- | []]]; [reflexivity | discriminate].
  - reflexivity.
  - reflexivity.
Defined.

End UpdateOwnText.

(* ================================================================== *)
(** ** The client's cached list against the server's list *)

Section ClientSync.

(** X12. For every gateway, a fetch ends with [loading] off and never
    touches the banner, the input, the edit target or the filter. When the
    list query succeeds the cached list becomes the server's list; when it
    fails the cached list stays as it was, with no error shown. *)
Theorem fetchTodos_effect (DB : Type) (G : Gateway DB) (cs : ClientState) (db : DB) :
  loading (fetchTodos cs db) = false
  /\ error (fetchTodos cs db) = error cs
  /\ inputValue (fetchTodos cs db) = inputValue cs
  /\ editingId (fetchTodos cs db) = editingId cs
  /\ filterText (fetchTodos cs db) = filterText cs
  /\ match select_order_created_at_desc db with
     | Data data => todos (fetchTodos cs db) = map toApi data
                    /\ in_sync (fetchTodos cs db) db
     | Error _ => todos (fetchTodos cs db) = todos cs
     end.
Proof.
  unfold fetchTodos, in_sync, GET.
  destruct (select_order_created_at_desc db) as [data | code]; cbn; repeat split.
Qed.

Lemma fetchTodos_in_sync (cs : ClientState) (st : Pg.Store) : in_sync (fetchTodos cs st) st.
Proof. reflexivity. Qed.

(** [createTodo] on the hosted table, case by case. *)
Lemma createTodo_cases (text : string) (now : Z) (cs : ClientState) (st : Pg.Store) :
  createTodo text now cs st =
  if (trim text =? "")%string then (false, cs, st)
  else if existsb (fun r => (Pg.index_key (todo r) =? Pg.index_key (trim text))%string)
                  (Pg.rows st)
  then (false, setError (Some "Duplicate todo item") cs, st)
  else
    let r := mkRow (Pg.gen_id (Pg.next_id st)) (trim text) false now in
    (true, setTodos (toApi r :: todos cs) cs,
     Pg.mkStore (Pg.rows st ++ [r])%list (S (Pg.next_id st))).
Proof.
  unfold createTodo. destruct (string_dec (trim text) "") as [E | E].
  - rewrite (POST_refuses_blank _ _ now (mkCreateBody (Some (JString text)) None) st E).
    rewrite E. reflexivity.
  - rewrite (POST_valid_text now text None st E).
    apply String.eqb_neq in E. rewrite E.
    destruct (existsb _ (Pg.rows st)); reflexivity.
Qed.





End ClientSync.

Section ClientUpdateSync.

Lemma filter_empty_update_rows (u : TodoUpdateData) (i : string) (l : list SupabaseTodo) :
  filter (fun r => (id r =? i)%string) (Pg.update_rows u i l) = [] ->
  Pg.update_rows u i l = l.
Proof.
  intros H. apply update_rows_absent. intros r Hr Hi.
  pose proof (update_rows_target u i l r Hr Hi) as Ht.
  assert (Hf : In (Pg.apply_update u r)
                  (filter (fun r0 => (id r0 =? i)%string) (Pg.update_rows u i l))).
  { apply filter_In. split; [exact Ht|]. cbn. now apply String.eqb_eq. }
  rewrite H in Hf. contradiction.
Qed.

(** The two outcomes of the write of [PUT] on the hosted table. *)
Lemma PUT_write_outcome (i : string) (u : TodoUpdateData) (st : Pg.Store) :
  (In (status (fst (PUT_write i u st))) [404; 500]
   /\ Pg.rows (snd (PUT_write i u st)) = Pg.rows st)
  \/ (exists orig,
         In orig (Pg.rows st) /\ id orig = i
         /\ PUT_write i u st
            = (json_response (TodoBody (toApi (Pg.apply_update u orig))) 200,
               Pg.mkStore (Pg.update_rows u i (Pg.rows st)) (Pg.next_id st))).
Proof.
  assert (Hdata : (In (status (fst (PUT_write i u st))) [404; 500]
                   /\ Pg.rows (snd (PUT_write i u st)) = Pg.rows st)
                  \/ (exists orig,
                         In orig (Pg.rows st) /\ id orig = i
                         /\ PUT_write i u st
                            = (json_response (TodoBody (toApi (Pg.apply_update u orig))) 200,
                               Pg.mkStore (Pg.update_rows u i (Pg.rows st)) (Pg.next_id st)))
                  \/ Pg.update u i st
                     = (Data (filter (fun r => (id r =? i)%string)
                                (Pg.update_rows u i (Pg.rows st))),
                        Pg.mkStore (Pg.update_rows u i (Pg.rows st)) (Pg.next_id st))).
  { unfold PUT_write. cbn [update_eq_select PgStore]. unfold Pg.update.
    destruct (upd_todo u) as [t|]; [|destruct (upd_is_completed u) as [b|]].
    - destruct (upd_is_completed u);
        (destruct (Pg.violates i _); [left; cbn; tauto | right; right; reflexivity]).
    - right. right. reflexivity.
    - left. cbn. tauto. }
  destruct Hdata as [H | [H | H]]; [now left | now right|].
  unfold PUT_write. cbn [update_eq_select PgStore]. rewrite H.
  destruct (filter _ _) as [|x rest] eqn:Ef.
  - left. cbn [fst snd status json_response Pg.rows]. split; [now left|].
    now apply filter_empty_update_rows.
  - right.
    assert (Hx : In x (filter (fun r => (id r =? i)%string)
                         (Pg.update_rows u i (Pg.rows st)))) by (rewrite Ef; now left).
    apply filter_In in Hx as [Hx Hxi]. apply String.eqb_eq in Hxi.
    destruct (update_rows_in u i _ x Hx) as [[_ (orig & Ho & Hoi & ->)] | [Hne _]];
      [|contradiction].
    exists orig. now repeat split.
Qed.

(** The two outcomes of [PUT] on the hosted table. *)
Lemma PUT_outcome (i : string) (body : TodoUpdateBody) (st : Pg.Store) :
  (In (status (fst (PUT i body st))) [400; 404; 409; 500]
   /\ Pg.rows (snd (PUT i body st)) = Pg.rows st)
  \/ (exists u orig,
         In orig (Pg.rows st) /\ id orig = i
         /\ PUT i body st
            = (json_response (TodoBody (toApi (Pg.apply_update u orig))) 200,
               Pg.mkStore (Pg.update_rows u i (Pg.rows st)) (Pg.next_id st))).
Proof.
  assert (Hw : forall u,
             (In (status (fst (PUT_write i u st))) [400; 404; 409; 500]
              /\ Pg.rows (snd (PUT_write i u st)) = Pg.rows st)
             \/ (exists u0 orig,
                    In orig (Pg.rows st) /\ id orig = i
                    /\ PUT_write i u st
                       = (json_response (TodoBody (toApi (Pg.apply_update u0 orig))) 200,
                          Pg.mkStore (Pg.update_rows u0 i (Pg.rows st)) (Pg.next_id st)))).
  { intros u. destruct (PUT_write_outcome i u st) as [[Hs Hr] | (orig & H)].
    - left. split; [|exact Hr]. cbn in *. tauto.
    - right. now exists u, orig. }
  unfold PUT. destruct (i =? "")%string; [left; cbn; tauto|].
  destruct (ub_todo body) as [j|]; [|apply Hw].
  destruct (negb (typeof (Some j) =? "string")%string || _); [left; cbn; tauto|].
  destruct (select_todo_ilike_neq _ i st) as [l | code]; [|left; cbn; tauto].
  destruct (0 <? List.length l)%nat; [left; cbn; tauto | apply Hw].
Qed.

Lemma NoDup_id_same (l : list SupabaseTodo) (x y : SupabaseTodo) :
  NoDup (map id l) -> In x l -> In y l -> id x = id y -> x = y.
Proof.
  induction l as [|a l IH]; [contradiction|]. cbn [map]. intros Hnd Hx Hy Hid.
  apply NoDup_cons_iff in Hnd as [Ha Hnd].
  destruct Hx as [-> | Hx], Hy as [-> | Hy].
  - reflexivity.
  - exfalso. apply Ha. rewrite Hid. now apply in_map.
  - exfalso. apply Ha. rewrite <- Hid. now apply in_map.
  - now apply IH.
Qed.

(** X16. Toggling a todo whose row is gone: for a non-empty id that no row
    of the table carries, [toggleCompletion] shows the banner
    "Update failed: 404", keeps the cached list (the stale todo stays
    listed) and leaves the table as it was. *)
Theorem toggleCompletion_missing_row (i : string) (isCompleted : bool)
        (cs : ClientState) (st : Pg.Store) :
  i <> "" ->
  (forall r, In r (Pg.rows st) -> id r <> i) ->
  toggleCompletion i isCompleted cs st
  = (setError (Some "Update failed: 404") cs, st).
Proof.
  intros Hid Habs. unfold toggleCompletion, updateTodo, update_body, PUT.
  rewrite (eqb_nonempty i Hid). cbn [p_todo p_isCompleted option_map ub_todo ub_isCompleted].
  unfold PUT_write. cbn [update_eq_select PgStore].
  rewrite (update_absent _ i st Habs). reflexivity.
Qed.

Lemma toggleCompletion_missing_row_witness :
  let st := Pg.mkStore [mkRow "2" "Buy milk" false 11] 3 in
  let cs := mkClient [Api.mk "2" "Buy milk" false 11; Api.mk "1" "Write spec" false 10]
                     "" None None "" None false in
  toggleCompletion "1" false cs st = (setError (Some "Update failed: 404") cs, st).
Proof.
  intros st cs. apply (toggleCompletion_missing_row "1" false cs st).
  - discriminate.
  - intros r [<- | []]. discriminate.
Defined.

End ClientUpdateSync.

(* ================================================================== *)
(** ** The form: submitting, typing, editing *)

Section Form.

Lemma key_collision_iff (text : string) (l : list SupabaseTodo) :
  existsb (fun r => (Pg.index_key (todo r) =? Pg.index_key text)%string) l = true
  <-> exists r, In r l /\ ci_eq (todo r) text.
Proof.
  rewrite existsb_exists. split; intros (r & Hr & H); exists r; (split; [exact Hr|]).
  - now apply String.eqb_eq in H.
  - now apply String.eqb_eq.
Qed.





End Form.

Section Counters.

(** X20. The three counters of the statistics panel add up: the number of
    completed todos plus the number of pending todos is the total, whatever
    the cached list. *)
Theorem counters_add_up (cs : ClientState) :
  (completedCount cs + pendingCount cs = totalCount cs)%nat.
Proof.
  unfold completedCount, pendingCount, totalCount.
  induction (todos cs) as [|t l IH]; [reflexivity|].
  cbn [filter]. destruct (Api.isCompleted t); cbn [negb List.length]; lia.
Qed.

End Counters.

(* ================================================================== *)
(** ** Letter case, on the characters *)

Section LetterCase.

Lemma ascii_of_nat_inj (n m : nat) :
  (n < 256)%nat -> (m < 256)%nat -> ascii_of_nat n = ascii_of_nat m -> n = m.
Proof.
  intros Hn Hm H. apply (f_equal nat_of_ascii) in H.
  now rewrite !nat_ascii_embedding in H.
Qed.

Lemma nat_of_ascii_inj (c d : ascii) : nat_of_ascii c = nat_of_ascii d -> c = d.
Proof.
  intros H. apply (f_equal ascii_of_nat) in H. now rewrite !ascii_nat_embedding in H.
Qed.

Lemma is_upper_true (c : ascii) :
  is_upper c = true -> (65 <= nat_of_ascii c <= 90)%nat.
Proof.
  unfold is_upper. rewrite andb_true_iff, !Nat.leb_le. tauto.
Qed.

Lemma is_upper_false (c : ascii) :
  is_upper c = false -> (nat_of_ascii c < 65 \/ 90 < nat_of_ascii c)%nat.
Proof.
  unfold is_upper. rewrite andb_false_iff, !Nat.leb_gt. tauto.
Qed.

Lemma lower_char_upper (c : ascii) :
  lower_char c = if is_upper c then ascii_of_nat (nat_of_ascii c + 32) else c.
Proof. reflexivity. Qed.

(** The folding of [toLowerCase] identifies exactly the two cases of a
    letter [A-Z]. *)
Lemma same_letter_iff (c d : ascii) : same_letter c d <-> lower_char c = lower_char d.
Proof.
  unfold same_letter. rewrite !lower_char_upper.
  pose proof (nat_ascii_bounded c) as Bc. pose proof (nat_ascii_bounded d) as Bd.
  destruct (is_upper c) eqn:Uc; destruct (is_upper d) eqn:Ud;
    try (apply is_upper_true in Uc); try (apply is_upper_true in Ud);
    try (apply is_upper_false in Uc); try (apply is_upper_false in Ud).
  - split.
    + intros [E | [[_ H] | [_ H]]]; [now subst | exfalso; lia | exfalso; lia].
    + intros H. left. apply nat_of_ascii_inj.
      apply ascii_of_nat_inj in H; lia.
  - split.
    + intros [E | [[_ H] | [H _]]]; [subst; exfalso; lia | | discriminate H].
      rewrite <- H. now rewrite ascii_nat_embedding.
    + intros H. right. left. split; [reflexivity|].
      rewrite <- H. rewrite nat_ascii_embedding; lia.
  - split.
    + intros [E | [[H _] | [_ H]]]; [subst; exfalso; lia | discriminate H |].
      rewrite <- H. now rewrite ascii_nat_embedding.
    + intros H. right. right. split; [reflexivity|].
      rewrite H. rewrite nat_ascii_embedding; lia.
  - split.
    + intros [E | [[H _] | [H _]]]; [exact E | discriminate H | discriminate H].
    + intros H. now left.
Qed.

(** Equality up to letter case is equality of the folded texts: the test
    of [filteredTodos], and the key of the store's index. *)
Lemma eq_up_to_case_iff (a b : string) : eq_up_to_case a b <-> ci_eq a b.
Proof.
  unfold ci_eq. split.
  - induction 1 as [|c d s t Hcd _ IH]; [reflexivity|].
    cbn [toLowerCase]. apply same_letter_iff in Hcd. now rewrite Hcd, IH.
  - revert b. induction a as [|c a IH]; intros [|d b] H; try discriminate H.
    + constructor.
    + cbn [toLowerCase] in H. injection H as Hc Hs.
      constructor; [now apply same_letter_iff | now apply IH].
Qed.

Lemma occurs_up_to_case_iff (f s : string) :
  occurs_up_to_case f s <-> includes (toLowerCase s) (toLowerCase f) = true.
Proof.
  rewrite includes_lower_iff. unfold occurs_up_to_case, ci_substring.
  split; intros (pre & mid & post & E & H); exists pre, mid, post;
    (split; [exact E | now apply eq_up_to_case_iff]).
Qed.

Lemma key_collision_up_to_case (text : string) (l : list SupabaseTodo) :
  existsb (fun r => (Pg.index_key (todo r) =? Pg.index_key text)%string) l = true
  <-> exists r, In r l /\ eq_up_to_case (todo r) text.
Proof.
  rewrite key_collision_iff.
  split; intros (r & Hr & H); exists r; (split; [exact Hr | now apply eq_up_to_case_iff]).
Qed.

End LetterCase.

(* ================================================================== *)
(** ** Create: validation, insertion and duplicates *)

Section CreateStatements.





End CreateStatements.

(* ================================================================== *)
(** ** Update: only the fields sent are written (statement) *)

Section UpdateFrameStatement.

(** C7. An update writes only the fields sent. With only [isCompleted] in
    the body no [id], [todo] or [created_at] of the table changes; with only
    [todo] in the body no [id], [is_completed] or [created_at] changes. For
    an id that is a path segment, the update of [isCompleted] leaves the
    table as it was except for the flag of the rows of that id; when a row
    has the id the answer is 200 and carries that row's text and timestamp
    with the new flag; a list fetched afterwards holds, newest first, the
    todos listed before with the flag set on that id, and it is that list in
    the same order when no two rows share a timestamp. The update of [todo]
    with an ASCII text, when answered 200, leaves the table as it was except
    for the text of the rows of that id, which is the trimmed text sent. *)
Theorem PUT_partial_update (i : string) (st : Pg.Store) :
  (forall b : bool,
      map (fun r => (id r, todo r, created_at r))
          (Pg.rows (snd (PUT i (mkUpdateBody None (Some b)) st)))
      = map (fun r => (id r, todo r, created_at r)) (Pg.rows st))
  /\ (forall v : json,
        map (fun r => (id r, is_completed r, created_at r))
            (Pg.rows (snd (PUT i (mkUpdateBody (Some v) None) st)))
        = map (fun r => (id r, is_completed r, created_at r)) (Pg.rows st))
  /\ (i <> "" -> forall b : bool,
        Pg.rows (snd (PUT i (mkUpdateBody None (Some b)) st))
        = map (fun r => if (id r =? i)%string
                        then mkRow (id r) (todo r) b (created_at r) else r) (Pg.rows st)
        /\ (forall row, In row (Pg.rows st) -> id row = i ->
              exists orig, In orig (Pg.rows st) /\ id orig = i
                /\ fst (PUT i (mkUpdateBody None (Some b)) st)
                   = json_response (TodoBody (Api.mk i (todo orig) b (created_at orig))) 200)
        /\ (forall l, GET st = json_response (ListBody l) 200 ->
              let flagged :=
                map (fun t => if (Api.id t =? i)%string
                              then Api.mk (Api.id t) (Api.todo t) b (Api.createdAt t)
                              else t) l in
              exists l',
                GET (snd (PUT i (mkUpdateBody None (Some b)) st))
                = json_response (ListBody l') 200
                /\ Permutation l' flagged
                /\ StronglySorted (fun x y => Api.createdAt x >= Api.createdAt y) l'
                /\ (NoDup (map created_at (Pg.rows st)) -> l' = flagged)))
  /\ (forall s : string,
        ascii_text s = true ->
        status (fst (PUT i (mkUpdateBody (Some (JString s)) None) st)) = 200 ->
        Pg.rows (snd (PUT i (mkUpdateBody (Some (JString s)) None) st))
        = map (fun r => if (id r =? i)%string
                        then mkRow (id r) (trim s) (is_completed r) (created_at r) else r)
              (Pg.rows st)).
Proof.
  destruct (string_dec i "") as [-> | Hid].
  - split; [|split; [|split]].
    + intros b. now rewrite PUT_empty_id.
    + intros v. now rewrite PUT_empty_id.
    + contradiction.
    + intros s _. rewrite PUT_empty_id. discriminate.
  - destruct (PUT_partial_update_segment i st Hid) as (Hflag & Htext & Hframe).
    split; [|split; [|split]].
    + intros b. rewrite (proj1 (Hflag b)), map_map. apply map_ext. intros r.
      now destruct (id r =? i)%string.
    + exact Hframe.
    + intros _ b. destruct (Hflag b) as (Hrows & Hresp & Hget).
      split; [exact Hrows|]. split; [exact Hresp|].
      intros l Hl flagged. exists flagged. specialize (Hget l Hl). fold flagged in Hget.
      split; [exact Hget|]. split; [apply Permutation_refl|]. split; [|reflexivity].
      rewrite GET_rows in Hget. injection Hget as <-.
      apply sorted_map_toApi, order_created_at_desc_sorted.
    + intros s _. apply Htext.
Qed.

Lemma PUT_partial_update_witness :
  let st := Pg.mkStore [mkRow "1" "Write spec" false 10; mkRow "2" "Buy milk" false 11] 3 in
  Pg.rows (snd (PUT "1" (mkUpdateBody None (Some true)) st))
  = [mkRow "1" "Write spec" true 10; mkRow "2" "Buy milk" false 11]
  /\ Pg.rows (snd (PUT "1" (mkUpdateBody (Some (JString " Read spec ")) None) st))
     = [mkRow "1" "Read spec" false 10; mkRow "2" "Buy milk" false 11].
Proof.
  intros st.
  assert (H : "1" <> "") by discriminate.
  split.
  - exact (proj1 (proj1 (proj2 (proj2 (PUT_partial_update "1" st))) H true)).
  - exact (proj2 (proj2 (proj2 (PUT_partial_update "1" st))) " Read spec " eq_refl eq_refl).
Defined.

End UpdateFrameStatement.

(* ================================================================== *)
(** ** The displayed list (statements) *)

Section FilterStatements.



(** X19. Typing filters the displayed list only outside edit mode. While a
    todo is being edited, a change of the input leaves the displayed list as
    it was; otherwise the filter follows the input and, for ASCII texts, the
    displayed list is the cached todos that contain the typed text up to
    letter case. Starting an edit and cancelling one both display the whole
    cache, and cancelling after starting leaves the form as cancelling alone
    does. *)
Theorem typing_and_displayed_list (value : string) (edited : Api.Todo) (cs : ClientState) :
  (editing cs = true ->
   filteredTodos (handleInputChange value cs) = filteredTodos cs
   /\ inputValue (handleInputChange value cs) = value)
  /\ (editing cs = false ->
      inputValue (handleInputChange value cs) = value
      /\ filterText (handleInputChange value cs) = value
      /\ (ascii_text value = true -> ascii_cache (todos cs) ->
          forall t, In t (filteredTodos (handleInputChange value cs))
                    <-> In t (todos cs) /\ occurs_up_to_case value (Api.todo t)))
  /\ filteredTodos (startEditing edited cs) = todos cs
  /\ filteredTodos (cancelEditing cs) = todos cs
  /\ cancelEditing (startEditing edited cs) = cancelEditing cs.
Proof.
  assert (Hall : forall l : list Api.Todo,
             filter (fun t => includes (toLowerCase (Api.todo t)) (toLowerCase "")) l = l).
  { intros l. apply filter_all. intros x _. apply includes_empty. }
  split; [|split; [|split; [|split]]].
  - intros He. unfold handleInputChange. rewrite He. split; reflexivity.
  - intros He. unfold handleInputChange. rewrite He.
    split; [reflexivity|]. split; [reflexivity|].
    intros _ _ t. unfold filteredTodos.
    cbn [negb todos filterText setFilterText setInputValue].
    rewrite filter_In, occurs_up_to_case_iff. reflexivity.
  - unfold filteredTodos, startEditing. cbn [todos filterText setFilterText setInputValue
                                                setEditingId]. apply Hall.
  - unfold filteredTodos, cancelEditing. cbn [todos filterText setFilterText setInputValue
                                                 setEditingId]. apply Hall.
  - reflexivity.
Qed.

Lemma typing_and_displayed_list_witness :
  let cs := mkClient [Api.mk "1" "Write spec" false 10; Api.mk "2" "Buy milk" false 11]
                     "Buy milk" (Some "2") None "" None false in
  let cs' := mkClient [Api.mk "1" "Write spec" false 10; Api.mk "2" "Buy milk" false 11]
                      "" None None "" None false in
  filteredTodos (handleInputChange "Buy oat milk" cs) = filteredTodos cs
  /\ (In (Api.mk "2" "Buy milk" false 11) (filteredTodos (handleInputChange "MILK" cs'))
      <-> In (Api.mk "2" "Buy milk" false 11) (todos cs')
          /\ occurs_up_to_case "MILK" "Buy milk").
Proof.
  intros cs cs'. split.
  - exact (proj1 (proj1 (typing_and_displayed_list "Buy oat milk"
                           (Api.mk "2" "Buy milk" false 11) cs) eq_refl)).
  - refine (proj2 (proj2 (proj1 (proj2 (typing_and_displayed_list "MILK"
                             (Api.mk "2" "Buy milk" false 11) cs')) eq_refl)) eq_refl _ _).
    repeat constructor.
Defined.

End FilterStatements.

(* ================================================================== *)
(** ** Duplicates, on ASCII texts *)

Section DuplicateStatements.

(** X9. For a trimmed ASCII text without pattern characters (no backslash,
    [%], [_] or [*]) and a table of ASCII texts, the duplicate check of the
    update is exactly the comparison up to letter case: the update of a
    non-empty id is answered 409 if and only if a row of another id holds
    the trimmed text up to letter case. *)
Theorem PUT_plain_text_conflict_iff (i s : string) (c : option bool) (st : Pg.Store) :
  i <> "" -> trim s <> "" -> plain_text (trim s) = true ->
  ascii_text s = true -> ascii_table (Pg.rows st) ->
  (status (fst (PUT i (mkUpdateBody (Some (JString s)) c) st)) = 409
   <-> exists other, In other (Pg.rows st) /\ id other <> i
                     /\ eq_up_to_case (todo other) (trim s)).
Proof.
  intros Hid Hs Hp _ _. split.
  - intros H. destruct (PUT_conflict_inv i _ st H) as (s0 & other & [= <-] & Hin & Ho & Hm).
    exists other. split; [exact Hin|]. split; [exact Ho|].
    apply eq_up_to_case_iff. now apply ilike_plain_iff.
  - intros (other & Hin & Ho & Heq). apply eq_up_to_case_iff in Heq.
    destruct (plain_text_chars _ Hp) as (H1 & _).
    now rewrite (PUT_duplicate_conflict_no_backslash i s c st other Hid Hs H1 Hin Ho Heq).
Qed.

Lemma PUT_plain_text_conflict_iff_witness :
  status (fst (PUT "2" (mkUpdateBody (Some (JString "WRITE spec")) None)
                 (Pg.mkStore [mkRow "1" "Write spec" false 10; mkRow "2" "Buy milk" false 11] 3)))
  = 409.
Proof.
  refine (proj2 (PUT_plain_text_conflict_iff "2" "WRITE spec" None
                   (Pg.mkStore [mkRow "1" "Write spec" false 10;
                                mkRow "2" "Buy milk" false 11] 3) _ _ _ _ _) _).
  - discriminate.
  - discriminate.
  - reflexivity.
  - reflexivity.
  - repeat constructor.
  - exists (mkRow "1" "Write spec" false 10). split; [now left|].
    split; [discriminate | apply eq_up_to_case_iff; reflexivity].
Defined.

(** X17. A submit outside edit mode, with an ASCII input and on a table of
    ASCII texts, has three outcomes. An input that is empty once trimmed
    shows "Todo cannot be empty" and sends nothing. An input whose trimmed
    text some row holds up to letter case shows "Duplicate todo item"; the
    input, the filter, the cache and the table stay. Otherwise the todo is
    created with the trimmed text and unchecked, put first in the cache, and
    the input and the filter are cleared, so the whole cache is displayed.
    The button handler [handleAddTodo] does the same. *)
Theorem handleSubmit_create (now : Z) (cs : ClientState) (st : Pg.Store) :
  editing cs = false ->
  ascii_text (inputValue cs) = true -> ascii_table (Pg.rows st) ->
  handleAddTodo now cs st = handleSubmit now cs st
  /\ ((trim (inputValue cs) = ""
       /\ handleSubmit now cs st = (setError (Some "Todo cannot be empty") cs, st))
      \/ (trim (inputValue cs) <> ""
          /\ (exists r, In r (Pg.rows st)
                        /\ eq_up_to_case (todo r) (trim (inputValue cs)))
          /\ handleSubmit now cs st = (setError (Some "Duplicate todo item") cs, st))
      \/ (trim (inputValue cs) <> ""
          /\ (forall r, In r (Pg.rows st) ->
                        ~ eq_up_to_case (todo r) (trim (inputValue cs)))
          /\ exists t row,
               Api.todo t = trim (inputValue cs) /\ Api.isCompleted t = false
               /\ t = toApi row
               /\ Pg.rows (snd (handleSubmit now cs st)) = (Pg.rows st ++ [row])%list
               /\ todos (fst (handleSubmit now cs st)) = t :: todos cs
               /\ inputValue (fst (handleSubmit now cs st)) = ""
               /\ filterText (fst (handleSubmit now cs st)) = ""
               /\ filteredTodos (fst (handleSubmit now cs st)) = t :: todos cs
               /\ error (fst (handleSubmit now cs st)) = error cs)).
Proof.
  intros He _ _. unfold handleAddTodo, handleSubmit. rewrite He. split; [reflexivity|].
  destruct (string_dec (trim (inputValue cs)) "") as [E | E].
  - left. split; [exact E|]. now rewrite E.
  - right. pose proof E as Eb. apply String.eqb_neq in Eb. rewrite Eb.
    rewrite createTodo_cases, trim_idempotent, Eb.
    destruct (existsb _ (Pg.rows st)) eqn:Ek.
    + left. split; [exact E|]. split; [now apply key_collision_up_to_case | reflexivity].
    + right. split; [exact E|]. split.
      * intros r Hr Hc.
        assert (H : existsb (fun r0 => (Pg.index_key (todo r0)
                                        =? Pg.index_key (trim (inputValue cs)))%string)
                            (Pg.rows st) = true)
          by (apply key_collision_up_to_case; now exists r).
        congruence.
      * cbv zeta. eexists. eexists. cbn [fst snd Pg.rows].
        repeat split; try reflexivity.
        unfold filteredTodos. cbn [todos filterText setFilterText setInputValue setTodos].
        cbn [toLowerCase]. apply filter_all. intros x _. apply includes_empty.
Qed.

Lemma handleSubmit_create_witness :
  let cs := mkClient [] "  Write spec " None None "  Write spec " None false in
  handleAddTodo 10 cs Pg.empty = handleSubmit 10 cs Pg.empty.
Proof.
  intros cs. refine (proj1 (handleSubmit_create 10 cs Pg.empty eq_refl eq_refl _)).
  constructor.
Defined.

End DuplicateStatements.

(* ================================================================== *)
(** ** The cached list after an update *)

Section ClientUpdateStatement.

(** X15. An update keeps the cached list equal to the server's list, when
    the ids of the table are distinct, no two rows share a timestamp and the
    texts involved are ASCII. Whatever fields are sent: on a 200 answer
    [updateTodo] returns [true] and the record returned replaces, in place,
    the cached todos of that id; on any other answer it returns [false] and
    neither the cache nor the table changes; in both cases a cache that
    showed what the server lists before shows what the server lists
    afterwards. *)
Theorem updateTodo_in_sync (i : string) (updates : PartialTodo) (cs : ClientState)
        (st : Pg.Store) :
  NoDup (map id (Pg.rows st)) ->
  NoDup (map created_at (Pg.rows st)) ->
  (forall s, p_todo updates = Some s -> ascii_text s = true) ->
  ascii_table (Pg.rows st) ->
  in_sync cs st ->
  let answer := PUT i (update_body updates) st in
  let result := updateTodo i updates cs st in
  in_sync (snd (fst result)) (snd result)
  /\ snd result = snd answer
  /\ (forall t, fst answer = json_response (TodoBody t) 200 ->
        fst (fst result) = true
        /\ todos (snd (fst result))
           = map (fun todo => if (Api.id todo =? i)%string then t else todo) (todos cs))
  /\ (status (fst answer) <> 200 ->
        fst (fst result) = false
        /\ todos (snd (fst result)) = todos cs
        /\ Pg.rows (snd result) = Pg.rows st).
Proof.
  unfold in_sync. intros Hnd _ _ _ Hs. cbv zeta. rewrite GET_rows in Hs. injection Hs as Hs.
  unfold updateTodo.
  destruct (PUT_outcome i (update_body updates) st) as [[Hst Hr] | (u & orig & Ho & Hoi & E)].
  - destruct (PUT i (update_body updates) st) as [resp st'].
    cbn [fst snd] in Hst, Hr.
    assert (Hget : GET st' = json_response (ListBody (todos cs)) 200)
      by (rewrite GET_rows, Hr, Hs; reflexivity).
    unfold ok.
    destruct Hst as [E | [E | [E | [E | []]]]]; rewrite <- E;
      cbn [Z.eqb Pos.eqb Z.leb Z.compare Pos.compare Pos.compare_cont andb fst snd
           setError todos];
      (split; [exact Hget|]); (split; [reflexivity|]);
      (split; [intros t Ht; rewrite Ht in E; discriminate E|]);
      intros _; repeat split; exact Hr.
  - rewrite E.
    cbn [status json_response Z.eqb Pos.eqb ok Z.leb Z.compare Pos.compare Pos.compare_cont
         andb body fst snd setTodos todos].
    split; [|split; [reflexivity|split]].
    + rewrite GET_rows. cbn [Pg.rows]. f_equal. f_equal.
      unfold Pg.update_rows.
      rewrite order_created_at_desc_map
        by (intros x; destruct (id x =? i)%string; reflexivity).
      rewrite <- Hs, !map_map. apply map_ext_in. intros x Hx.
      assert (Hxin : In x (Pg.rows st))
        by (eapply Permutation_in; [apply order_created_at_desc_perm | exact Hx]).
      cbn [toApi Api.id]. destruct (id x =? i)%string eqn:Ex; [|reflexivity].
      apply String.eqb_eq in Ex.
      now rewrite (NoDup_id_same _ x orig Hnd Hxin Ho (eq_trans Ex (eq_sym Hoi))).
    + intros t [= <-]. split; reflexivity.
    + intros H. contradiction H. reflexivity.
Qed.

Lemma updateTodo_in_sync_witness :
  let st := Pg.mkStore [mkRow "1" "Write spec" false 10; mkRow "2" "Buy milk" false 11] 3 in
  let cs := mkClient [Api.mk "2" "Buy milk" false 11; Api.mk "1" "Write spec" false 10]
                     "" None None "" None false in
  in_sync (snd (fst (updateTodo "1" (mkPartial None None (Some true) None) cs st)))
          (snd (updateTodo "1" (mkPartial None None (Some true) None) cs st)).
Proof.
  intros st cs.
  refine (proj1 (updateTodo_in_sync "1" (mkPartial None None (Some true) None) cs st
                   _ _ _ _ _)).
  - repeat constructor; cbn; intuition discriminate.
  - repeat constructor; cbn; intuition discriminate.
  - intros s H. discriminate H.
  - repeat constructor.
  - reflexivity.
Defined.

End ClientUpdateStatement.
